(** * ESP-AT library, access-point API (esp/esp_ap.c)

    A shallow embedding of the seven public functions of [esp_ap.c] and of
    the request record they fill, followed by the properties the design
    document states about them.

    Every function of the file has the same shape: a run of [ESP_ASSERT]
    guards, the construction of one [esp_msg_t], and a tail call
    [return espi_send_msg_to_producer_mbox(&msg, espi_initiate_cmd, t)].
    The dispatcher itself lives in another translation unit, so the tail
    call is kept as an explicit outcome ([Submitted]) carrying the record,
    the processing function and the block time that the source passes. *)

From stdpp Require Import base option list gmap.
From Stdlib Require Import ZArith Lia.

Local Open Scope Z_scope.

(** ** Values and types of the API *)

(** Pointers are addresses; the null pointer is address zero. *)
Abbreviation ptr := Z (only parsing).
Definition NULL : ptr := 0.

(** Modelled from the spec: the result enumeration [espr_t] is declared in a
    header outside the translated file.  Its members follow the error
    taxonomy of the design document; [espOK] is the one member the source's
    own comments name, and [InvalidArgument] is what a failed [ESP_ASSERT]
    reports. *)
Inductive espr_t : Type :=
| espOK
| InvalidArgument
| NotReady
| QueueFull
| Timeout
| DeviceError.

Global Instance espr_t_eq_dec : EqDecision espr_t.
Proof. solve_decision. Defined.

(** The command tags written to [cmd_def] by the functions of the file. *)
Inductive esp_cmd_t : Type :=
| ESP_CMD_WIFI_CIPAP_GET
| ESP_CMD_WIFI_CIPAP_SET
| ESP_CMD_WIFI_CIPAPMAC_GET
| ESP_CMD_WIFI_CIPAPMAC_SET
| ESP_CMD_WIFI_CWSAP_SET
| ESP_CMD_WIFI_CWLIF
| ESP_CMD_WIFI_CWQIF.

(** The processing function handed to the dispatcher; the file only ever
    passes [espi_initiate_cmd]. *)
Inductive process_fn : Type :=
| espi_initiate_cmd.

(** The members of the [msg] union that the file writes.  Fields assigned
    with [=] hold what the caller passed (a pointer or a scalar); fields
    filled with [ESP_MEMCPY] hold the octets themselves. *)
Inductive esp_msg_union : Type :=
| sta_ap_getip (ip gw nm : ptr)
| sta_ap_setip (ip gw nm : list Z)
| sta_ap_getmac (mac : ptr)
| sta_ap_setmac (mac : list Z)
| ap_conf (ssid pwd : ptr) (ch ecn max_sta hid : Z)
| sta_list (stas : ptr) (stal : Z) (staf : ptr)
| ap_disconn_sta (mac : list Z).

Record esp_msg_t : Type := Msg {
  cmd_def : esp_cmd_t;
  is_blocking : bool;
  evt_fn : ptr;
  evt_arg : ptr;
  msg : esp_msg_union
}.

(** ** Program state *)

(** The caller's memory, one scalar object per address (an octet of an
    address, a character of a string, a [size_t] counter), and the number
    of request records constructed so far. *)
Record world : Type := World {
  mem : gmap Z Z;
  msg_count : nat
}.

(** One run of a function either is undefined (an access through a null or
    unmapped pointer), returns early, reaches the tail call to the
    dispatcher, or carries on with a value. *)
Inductive step (A : Type) : Type :=
| Undefined
| Returned (r : espr_t) (w : world)
| Submitted (m : esp_msg_t) (fn : process_fn) (max_block_time : Z) (w : world)
| Next (a : A) (w : world).

Arguments Undefined {A}.
Arguments Returned {A} r w.
Arguments Submitted {A} m fn max_block_time w.
Arguments Next {A} a w.

Definition cmd (A : Type) : Type := world -> step A.

Global Instance cmd_ret : MRet cmd := fun A a w => Next a w.

Global Instance cmd_bind : MBind cmd := fun A B k c w =>
  match c w with
  | Undefined => Undefined
  | Returned r w' => Returned r w'
  | Submitted m fn t w' => Submitted m fn t w'
  | Next a w' => k a w'
  end.

(** ** Memory access *)

(** [*p] for an octet or a character. *)
Definition load (p : ptr) : cmd Z := fun w =>
  if decide (p = NULL) then Undefined
  else match mem w !! p with
       | Some b => Next b w
       | None => Undefined
       end.

(** [*p = v]. *)
Definition store (p : ptr) (v : Z) : cmd () := fun w =>
  if decide (p = NULL) then Undefined
  else match mem w !! p with
       | Some _ => Next () (World (<[p := v]> (mem w)) (msg_count w))
       | None => Undefined
       end.

Fixpoint load_bytes (m : gmap Z Z) (p : ptr) (n : nat) : option (list Z) :=
  match n with
  | O => Some []
  | S n' =>
      match m !! p with
      | Some b => cons b <$> load_bytes m (p + 1) n'
      | None => None
      end
  end.

(** Modelled from the spec: [ESP_MEMCPY] is defined in a header outside the
    translated file; it copies byte for byte.  [ESP_MEMCPY(&field, src, n)]
    yields the [n] octets read at [src], which the caller of this definition
    places in the field.  A null source is undefined whatever [n] is. *)
Definition ESP_MEMCPY (src : ptr) (n : nat) : cmd (list Z) := fun w =>
  if decide (src = NULL) then Undefined
  else match load_bytes (mem w) src n with
       | Some bs => Next bs w
       | None => Undefined
       end.

(** [strlen]: characters are counted up to the first zero.  Memory is
    finite, so a scan that meets no zero runs into an unmapped address
    within [size m] steps; the fuel below is therefore never what stops
    it (lemma [strlen_from_cstring]). *)
Fixpoint strlen_from (fuel : nat) (m : gmap Z Z) (p : ptr) : option Z :=
  match fuel with
  | O => None
  | S fuel' =>
      match m !! p with
      | None => None
      | Some c =>
          if decide (c = 0) then Some 0
          else Z.succ <$> strlen_from fuel' m (p + 1)
      end
  end.

Definition strlen (p : ptr) : cmd Z := fun w =>
  if decide (p = NULL) then Undefined
  else match strlen_from (S (size (mem w))) (mem w) p with
       | Some n => Next n w
       | None => Undefined
       end.

(** ** The macros of esp_private.h used by the file *)

(** Modelled from the spec: [ESP_ASSERT] is defined in a header outside the
    translated file.  A violated precondition makes the function fail at
    once with [InvalidArgument]; nothing else happens. *)
Definition ESP_ASSERT (c : bool) : cmd () := fun w =>
  if c then Next () w else Returned InvalidArgument w.

(** Modelled from the spec: [ESP_MSG_VAR_ALLOC] is defined in a header
    outside the translated file.  It creates the request record of the
    call and fixes its completion mode from the blocking flag; the value
    returned here is that mode. *)
Definition ESP_MSG_VAR_ALLOC (blocking : Z) : cmd bool := fun w =>
  Next (bool_decide (blocking ≠ 0)) (World (mem w) (S (msg_count w))).

(** The tail call to the dispatcher. *)
Definition espi_send_msg_to_producer_mbox
    (m : esp_msg_t) (fn : process_fn) (max_block_time : Z) : cmd espr_t :=
  fun w => Submitted m fn max_block_time w.

(** ** The functions of esp_ap.c *)

Section esp_ap.

(** Declared in headers outside the translated file and taken as
    parameters: the sizes of [esp_ip_t] and [esp_mac_t], and the values
    of the four encryption-mode enumerators the file compares with. *)
Variables sizeof_esp_ip_t sizeof_esp_mac_t : nat.
Variables ESP_ECN_OPEN ESP_ECN_WPA_PSK ESP_ECN_WPA2_PSK ESP_ECN_WPA_WPA2_PSK : Z.

(** In each function the assignments to the fields of the record, which
    the source writes one per line after [ESP_MSG_VAR_ALLOC], are
    gathered in one record expression; [ESP_MSG_VAR_SET_EVT] gives the
    [evt_fn] and [evt_arg] fields. *)

Definition esp_ap_getip (ip gw nm : ptr)
    (evt_fn evt_arg : ptr) (blocking : Z) : cmd espr_t :=
  blk ← ESP_MSG_VAR_ALLOC blocking;
  espi_send_msg_to_producer_mbox
    {| cmd_def := ESP_CMD_WIFI_CIPAP_GET; is_blocking := blk;
       evt_fn := evt_fn; evt_arg := evt_arg;
       msg := sta_ap_getip ip gw nm |}
    espi_initiate_cmd 1000.

Definition esp_ap_setip (ip gw nm : ptr)
    (evt_fn evt_arg : ptr) (blocking : Z) : cmd espr_t :=
  ESP_ASSERT (bool_decide (ip ≠ NULL));;
  blk ← ESP_MSG_VAR_ALLOC blocking;
  ip_v ← ESP_MEMCPY ip sizeof_esp_ip_t;
  gw_v ← ESP_MEMCPY gw sizeof_esp_ip_t;
  nm_v ← ESP_MEMCPY nm sizeof_esp_ip_t;
  espi_send_msg_to_producer_mbox
    {| cmd_def := ESP_CMD_WIFI_CIPAP_SET; is_blocking := blk;
       evt_fn := evt_fn; evt_arg := evt_arg;
       msg := sta_ap_setip ip_v gw_v nm_v |}
    espi_initiate_cmd 1000.

Definition esp_ap_getmac (mac : ptr)
    (evt_fn evt_arg : ptr) (blocking : Z) : cmd espr_t :=
  blk ← ESP_MSG_VAR_ALLOC blocking;
  espi_send_msg_to_producer_mbox
    {| cmd_def := ESP_CMD_WIFI_CIPAPMAC_GET; is_blocking := blk;
       evt_fn := evt_fn; evt_arg := evt_arg;
       msg := sta_ap_getmac mac |}
    espi_initiate_cmd 1000.

Definition esp_ap_setmac (mac : ptr)
    (evt_fn evt_arg : ptr) (blocking : Z) : cmd espr_t :=
  ESP_ASSERT (bool_decide (mac ≠ NULL));;
  b0 ← load mac;
  ESP_ASSERT (negb (bool_decide (Z.land b0 1 ≠ 0)));;
  blk ← ESP_MSG_VAR_ALLOC blocking;
  mac_v ← ESP_MEMCPY mac sizeof_esp_mac_t;
  espi_send_msg_to_producer_mbox
    {| cmd_def := ESP_CMD_WIFI_CIPAPMAC_SET; is_blocking := blk;
       evt_fn := evt_fn; evt_arg := evt_arg;
       msg := sta_ap_setmac mac_v |}
    espi_initiate_cmd 1000.

(** The [uint8_t] and [size_t] arguments ([ch], [max_sta], [hid], [stal])
    are integers, compared as the guards compare them. *)

(** The second guard of [esp_ap_configure],
    [pwd == NULL || (pwd != NULL && strlen(pwd) <= 64)]: [strlen] is
    evaluated only when [pwd] is not null. *)
Definition pwd_guard (pwd : ptr) : cmd bool :=
  if bool_decide (pwd = NULL) then mret true
  else n ← strlen pwd; mret (bool_decide (n ≤ 64)).

Definition ecn_guard (ecn : Z) : bool :=
  bool_decide (ecn = ESP_ECN_OPEN) || bool_decide (ecn = ESP_ECN_WPA_PSK)
  || bool_decide (ecn = ESP_ECN_WPA2_PSK)
  || bool_decide (ecn = ESP_ECN_WPA_WPA2_PSK).

Definition esp_ap_configure (ssid pwd : ptr) (ch ecn max_sta hid : Z)
    (evt_fn evt_arg : ptr) (blocking : Z) : cmd espr_t :=
  ESP_ASSERT (bool_decide (ssid ≠ NULL));;
  pwd_ok ← pwd_guard pwd;
  ESP_ASSERT pwd_ok;;
  ESP_ASSERT (ecn_guard ecn);;
  ESP_ASSERT (bool_decide (ch ≤ 128));;
  ESP_ASSERT (bool_decide (0 < max_sta) && bool_decide (max_sta ≤ 10));;
  blk ← ESP_MSG_VAR_ALLOC blocking;
  espi_send_msg_to_producer_mbox
    {| cmd_def := ESP_CMD_WIFI_CWSAP_SET; is_blocking := blk;
       evt_fn := evt_fn; evt_arg := evt_arg;
       msg := ap_conf ssid pwd ch ecn max_sta hid |}
    espi_initiate_cmd 10000.

Definition esp_ap_list_sta (sta : ptr) (stal : Z) (staf : ptr)
    (evt_fn evt_arg : ptr) (blocking : Z) : cmd espr_t :=
  ESP_ASSERT (bool_decide (sta ≠ NULL));;
  ESP_ASSERT (bool_decide (0 < stal));;
  (if bool_decide (staf ≠ NULL) then store staf 0 else mret ());;
  blk ← ESP_MSG_VAR_ALLOC blocking;
  espi_send_msg_to_producer_mbox
    {| cmd_def := ESP_CMD_WIFI_CWLIF; is_blocking := blk;
       evt_fn := evt_fn; evt_arg := evt_arg;
       msg := sta_list sta stal staf |}
    espi_initiate_cmd 1000.

Definition esp_ap_disconn_sta (mac : ptr)
    (evt_fn evt_arg : ptr) (blocking : Z) : cmd espr_t :=
  ESP_ASSERT (bool_decide (mac ≠ NULL));;
  blk ← ESP_MSG_VAR_ALLOC blocking;
  mac_v ← ESP_MEMCPY mac sizeof_esp_mac_t;
  espi_send_msg_to_producer_mbox
    {| cmd_def := ESP_CMD_WIFI_CWQIF; is_blocking := blk;
       evt_fn := evt_fn; evt_arg := evt_arg;
       msg := ap_disconn_sta mac_v |}
    espi_initiate_cmd 1000.

End esp_ap.

(** ** Well-formed arguments *)

(** [p] points to a zero-terminated string of [n] characters. *)
Definition is_cstring (m : gmap Z Z) (p : ptr) (n : nat) : Prop :=
  (∀ i : nat, (i < n)%nat → ∃ c, m !! (p + Z.of_nat i) = Some c ∧ c ≠ 0)
  ∧ m !! (p + Z.of_nat n) = Some 0.

(** The octets [bs] are those found in [m] from address [p] on. *)
Definition holds_octets (m : gmap Z Z) (p : ptr) (bs : list Z) : Prop :=
  ∀ i : nat, (i < length bs)%nat → m !! (p + Z.of_nat i) = bs !! i.

(** The passphrase argument of a call is either absent or a string. *)
Definition pwd_arg (m : gmap Z Z) (pwd : ptr) (len : option nat) : Prop :=
  match len with
  | None => pwd = NULL
  | Some n => pwd ≠ NULL ∧ is_cstring m pwd n
  end.

(** The characters of the string at [p], as found in [m]; none for a null
    pointer or for a scan that leaves mapped memory. *)
Definition read_string (m : gmap Z Z) (p : ptr) : list Z :=
  if decide (p = NULL) then []
  else match strlen_from (S (size m)) m p with
       | Some n => default [] (load_bytes m p (Z.to_nat n))
       | None => []
       end.

(** Modelled from the spec: the encoder that reads a record when the
    command is formatted is outside the translated file.  This is what it
    finds as the octets of the payload when memory is [later]: fields
    filled by copy are in the record itself; text fields hold an address,
    and give whatever [later] holds there; output pointers and scalars
    contribute no octets. *)
Definition payload_octets (later : gmap Z Z) (u : esp_msg_union) : list Z :=
  match u with
  | sta_ap_setip ip gw nm => ip ++ gw ++ nm
  | sta_ap_setmac mac => mac
  | ap_disconn_sta mac => mac
  | ap_conf ssid pwd _ _ _ _ => read_string later ssid ++ read_string later pwd
  | sta_ap_getip _ _ _ | sta_ap_getmac _ | sta_list _ _ _ => []
  end.

(** ** A call together with a dispatcher *)

Section linked.

(** The dispatcher is outside the translated file: any function from the
    submitted record, processing function and block time to a status and
    a new state. *)
Variable dispatcher : esp_msg_t → process_fn → Z → world → espr_t * world.

(** The whole call: the tail call is resolved with [dispatcher].  [None]
    stands for undefined behaviour. *)
Definition call (f : cmd espr_t) (w : world) : option (espr_t * world) :=
  match f w with
  | Undefined => None
  | Returned r w' => Some (r, w')
  | Submitted m fn t w' => Some (dispatcher m fn t w')
  | Next r w' => Some (r, w')
  end.

(** The design document's rule for output fields: the dispatcher writes
    to the caller's memory only on the success path. *)
Definition writes_only_on_success : Prop :=
  ∀ m fn t w r w', dispatcher m fn t w = (r, w') → r ≠ espOK → mem w' = mem w.

End linked.

(** Modelled from the spec: a dispatcher for the station-list example of
    the design document.  The driver is ready or not; when it is, a
    station-list record is answered by writing the number of connected
    stations, capped at the capacity of the caller's array, through a
    non-null count pointer. *)
Definition station_dispatcher (ready : bool) (connected : Z)
    (m : esp_msg_t) (fn : process_fn) (t : Z) (w : world) : espr_t * world :=
  if ready then
    match msg m with
    | sta_list _ stal staf =>
        if decide (staf = NULL) then (espOK, w)
        else (espOK, World (<[staf := Z.min stal connected]> (mem w)) (msg_count w))
    | _ => (espOK, w)
    end
  else (NotReady, w).

(** ** The seven functions as one family *)

(** A call of one of the functions of the file, with its own arguments;
    the three completion arguments, which every function takes, are given
    apart. *)
Inductive ap_call : Type :=
| Getip (ip gw nm : ptr)
| Setip (ip gw nm : ptr)
| Getmac (mac : ptr)
| Setmac (mac : ptr)
| Configure (ssid pwd : ptr) (ch ecn max_sta hid : Z)
| List_sta (sta : ptr) (stal : Z) (staf : ptr)
| Disconn_sta (mac : ptr).

Section family.

Variables sizeof_esp_ip_t sizeof_esp_mac_t : nat.
Variables ESP_ECN_OPEN ESP_ECN_WPA_PSK ESP_ECN_WPA2_PSK ESP_ECN_WPA_WPA2_PSK : Z.

Definition invoke (c : ap_call) (evt_fn evt_arg : ptr) (blocking : Z)
    : cmd espr_t :=
  match c with
  | Getip ip gw nm => esp_ap_getip ip gw nm evt_fn evt_arg blocking
  | Setip ip gw nm =>
      esp_ap_setip sizeof_esp_ip_t ip gw nm evt_fn evt_arg blocking
  | Getmac mac => esp_ap_getmac mac evt_fn evt_arg blocking
  | Setmac mac => esp_ap_setmac sizeof_esp_mac_t mac evt_fn evt_arg blocking
  | Configure ssid pwd ch ecn max_sta hid =>
      esp_ap_configure ESP_ECN_OPEN ESP_ECN_WPA_PSK ESP_ECN_WPA2_PSK
        ESP_ECN_WPA_WPA2_PSK ssid pwd ch ecn max_sta hid
        evt_fn evt_arg blocking
  | List_sta sta stal staf =>
      esp_ap_list_sta sta stal staf evt_fn evt_arg blocking
  | Disconn_sta mac =>
      esp_ap_disconn_sta sizeof_esp_mac_t mac evt_fn evt_arg blocking
  end.

End family.

(** The functions that return early on a bad argument; the two getters
    have no guard. *)
Definition has_guard (c : ap_call) : bool :=
  match c with
  | Getip _ _ _ | Getmac _ => false
  | _ => true
  end.

(** The memory a submitted call leaves behind: only [esp_ap_list_sta] with
    a count pointer writes, and it writes that one cell. *)
Definition memory_after (c : ap_call) (m : gmap Z Z) : gmap Z Z :=
  match c with
  | List_sta _ _ staf => if decide (staf = NULL) then m else <[staf := 0]> m
  | _ => m
  end.

(** [n] objects can be read from the non-null address [p] on. *)
Definition readable (m : gmap Z Z) (p : ptr) (n : nat) : Prop :=
  p ≠ NULL ∧ ∀ i : nat, (i < n)%nat → is_Some (m !! (p + Z.of_nat i)).

(** ** The dispatcher queue *)

Module Dispatcher.

(** Modelled from the spec: the dispatcher queue and its single worker
    are in another translation unit; what follows is sections 4.2, 4.4
    and 5 of the design document.  Callers only append to a bounded
    FIFO; one worker takes the oldest record when it holds none, runs it,
    and brings it to a terminal state.  Concurrency is interleaving: a
    run is any sequence of events, each the atomic action of some caller
    or of the worker. *)

Inductive status : Type :=
| St_pending
| St_executing
| St_success
| St_failure
| St_timeout.

Global Instance status_eq_dec : EqDecision status.
Proof. solve_decision. Defined.

(** A queued record: its sequence number and its completion mode. *)
Record entry : Type := Entry {
  seq_no : nat;
  blocking : bool
}.

Record state : Type := State {
  ready : bool;                  (* the driver has been brought up *)
  fifo : list entry;             (* waiting records, oldest first *)
  current : option entry;        (* the record the worker holds *)
  status_of : gmap nat status;   (* by sequence number *)
  submitted : list entry;        (* accepted submissions, in order *)
  started : list entry;          (* records taken by the worker, in order *)
  finished : list entry          (* records brought to a terminal state *)
}.

Definition init : state :=
  State false [] None ∅ [] [] [].

Inductive event : Type :=
| Ev_bring_up
| Ev_submit (blk : bool)
| Ev_start
| Ev_finish (o : status).

Definition is_terminal (o : status) : bool :=
  match o with
  | St_success | St_failure | St_timeout => true
  | St_pending | St_executing => false
  end.

(** Modelled from the spec: [submit] appends the record to the FIFO and
    reports whether that succeeded; a driver that is not ready and a full
    queue reject it and change nothing. *)
Definition submit (capacity : nat) (blk : bool) (s : state) : espr_t * state :=
  if negb (ready s) then (NotReady, s)
  else if decide (capacity ≤ length (fifo s))%nat then (QueueFull, s)
  else
    let e := Entry (length (submitted s)) blk in
    (espOK,
     State (ready s) (fifo s ++ [e]) (current s)
           (<[seq_no e := St_pending]> (status_of s))
           (submitted s ++ [e]) (started s) (finished s)).

(** Modelled from the spec: the worker takes the head of the FIFO when it
    holds no record, and the record becomes the executing one. *)
Definition start (s : state) : state :=
  match current s, fifo s with
  | None, e :: rest =>
      State (ready s) rest (Some e)
            (<[seq_no e := St_executing]> (status_of s))
            (submitted s) (started s ++ [e]) (finished s)
  | _, _ => s
  end.

(** Modelled from the spec: the worker's record reaches the terminal state
    [o] (success, failure or timeout) and the worker is free again. *)
Definition finish (o : status) (s : state) : state :=
  match current s with
  | Some e =>
      if is_terminal o then
        State (ready s) (fifo s) None
              (<[seq_no e := o]> (status_of s))
              (submitted s) (started s) (finished s ++ [e])
      else s
  | None => s
  end.

(** Modelled from the spec: one atomic action, of the driver start-up, of
    a caller or of the worker. *)
Definition step (capacity : nat) (s : state) (ev : event) : state :=
  match ev with
  | Ev_bring_up =>
      State true (fifo s) (current s) (status_of s)
            (submitted s) (started s) (finished s)
  | Ev_submit blk => (submit capacity blk s).2
  | Ev_start => start s
  | Ev_finish o => finish o s
  end.

(** Modelled from the spec: the state after the actions [evs], in the
    order in which they were interleaved. *)
Definition run (capacity : nat) (evs : list event) : state :=
  foldl (step capacity) init evs.

Definition executing (s : state) (i : nat) : Prop :=
  status_of s !! i = Some St_executing.

(** The invariant of every run. *)
Record inv (s : state) : Prop := Inv {
  inv_active : ∀ i, executing s i ↔ seq_no <$> current s = Some i;
  inv_fresh : ∀ i, is_Some (status_of s !! i) → (i < length (submitted s))%nat;
  inv_seq : seq_no <$> submitted s = seq 0 (length (submitted s));
  inv_order : started s ++ fifo s = submitted s;
  inv_done : finished s ++ option_list (current s) = started s
}.

End Dispatcher.

(** ** A sample state

    Caller memory used by the concrete calls at the end of the file: the
    passphrase "password123" at 100, the MAC 02:11:22:33:44:55 at 200, the
    multicast MAC 01:00:5e:00:00:01 at 210, the address 192.168.4.1 at 300
    and again as gateway at 304, the netmask 255.255.255.0 at 308, a station
    count holding 7 at 400, and the SSID "NET1" at 600. *)
Definition sample_mem : gmap Z Z :=
  list_to_map
    [(100, 112); (101, 97); (102, 115); (103, 115); (104, 119); (105, 111);
     (106, 114); (107, 100); (108, 49); (109, 50); (110, 51); (111, 0);
     (200, 2); (201, 17); (202, 34); (203, 51); (204, 68); (205, 85);
     (210, 1); (211, 0); (212, 94); (213, 0); (214, 0); (215, 1);
     (300, 192); (301, 168); (302, 4); (303, 1);
     (304, 192); (305, 168); (306, 4); (307, 1);
     (308, 255); (309, 255); (310, 255); (311, 0);
     (400, 7);
     (600, 78); (601, 69); (602, 84); (603, 49); (604, 0)].

Definition sample_world : world := World sample_mem 0.

(** * Properties *)

(** ** Evaluation of the building blocks *)

Lemma bind_eval {A B} (c : cmd A) (k : A → cmd B) (w : world) :
  (c ≫= k) w =
  match c w with
  | Undefined => Undefined
  | Returned r w' => Returned r w'
  | Submitted m fn t w' => Submitted m fn t w'
  | Next a w' => k a w'
  end.
Proof. reflexivity. Qed.

Lemma assert_holds (c : bool) (w : world) :
  c = true → ESP_ASSERT c w = Next () w.
Proof. by intros ->. Qed.

Lemma assert_fails (c : bool) (w : world) :
  c = false → ESP_ASSERT c w = Returned InvalidArgument w.
Proof. by intros ->. Qed.

Lemma load_mapped (p : ptr) (b : Z) (w : world) :
  p ≠ NULL → mem w !! p = Some b → load p w = Next b w.
Proof. intros Hp Hb. unfold load. rewrite decide_False by done. by rewrite Hb. Qed.

Lemma memcpy_null (n : nat) (w : world) : ESP_MEMCPY NULL n w = Undefined.
Proof. reflexivity. Qed.

Lemma memcpy_mapped (p : ptr) (n : nat) (bs : list Z) (w : world) :
  p ≠ NULL → load_bytes (mem w) p n = Some bs → ESP_MEMCPY p n w = Next bs w.
Proof. intros Hp Hb. unfold ESP_MEMCPY. rewrite decide_False by done. by rewrite Hb. Qed.

Lemma load_bytes_length (m : gmap Z Z) (n : nat) :
  ∀ p bs, load_bytes m p n = Some bs → length bs = n.
Proof.
  induction n as [|n IH]; intros p bs; cbn [load_bytes].
  - by intros [= <-].
  - destruct (m !! p) as [b|]; [|done].
    destruct (load_bytes m (p + 1) n) as [bs'|] eqn:E; simpl; [|done].
    intros [= <-]. simpl. f_equal. by eapply IH.
Qed.

Lemma load_bytes_octets (m : gmap Z Z) (n : nat) :
  ∀ p bs, load_bytes m p n = Some bs → holds_octets m p bs.
Proof.
  induction n as [|n IH]; intros p bs; cbn [load_bytes].
  - intros [= <-] i Hi. simpl in Hi. lia.
  - destruct (m !! p) as [b|] eqn:Hb; [|done].
    destruct (load_bytes m (p + 1) n) as [bs'|] eqn:E; simpl; [|done].
    intros [= <-] i Hi. destruct i as [|i].
    + by rewrite Z.add_0_r.
    + simpl in Hi. change ((b :: bs') !! S i) with (bs' !! i).
      rewrite <- (IH _ _ E i) by lia. f_equal. lia.
Qed.

(** The low bit of an octet, as the source tests it. *)
Lemma low_bit_land (b : Z) : Z.land b 1 ≠ 0 ↔ Z.testbit b 0 = true.
Proof.
  change 1 with (Z.ones 1). rewrite Z.land_ones by lia.
  change (2 ^ 1) with 2. rewrite <- Z.bit0_mod.
  destruct (Z.testbit b 0); simpl; split; (done || lia).
Qed.

(** *** [strlen] on strings *)

Lemma cstring_tail (m : gmap Z Z) (p : ptr) (n : nat) :
  is_cstring m p (S n) → is_cstring m (p + 1) n.
Proof.
  intros [Hc Hz]. split.
  - intros i Hi. destruct (Hc (S i)) as (c & Hl & Hne); [lia|].
    exists c. split; [|done]. rewrite <- Hl. f_equal. lia.
  - rewrite <- Hz. f_equal. lia.
Qed.

Lemma cstring_addresses (m : gmap Z Z) (p : ptr) (n : nat) :
  is_cstring m p n → ∀ a, a ∈ seqZ p (Z.of_nat (S n)) → a ∈ dom m.
Proof.
  intros [Hc Hz] a Ha. apply elem_of_seqZ in Ha. apply elem_of_dom.
  destruct (decide (a = p + Z.of_nat n)) as [->|Hne]; [by eexists|].
  destruct (Hc (Z.to_nat (a - p))) as (c & Hl & _); [lia|].
  exists c. rewrite <- Hl. f_equal. lia.
Qed.

(** A string together with its terminator fits in memory. *)
Lemma cstring_bound (m : gmap Z Z) (p : ptr) (n : nat) :
  is_cstring m p n → (n < size m)%nat.
Proof.
  intros Hs.
  assert (list_to_set (C := gset Z) (seqZ p (Z.of_nat (S n))) ⊆ dom m) as Hsub.
  { intros a Ha. apply elem_of_list_to_set in Ha. by eapply cstring_addresses. }
  apply subseteq_size in Hsub.
  rewrite size_list_to_set in Hsub by apply NoDup_seqZ.
  rewrite length_seqZ, size_dom in Hsub. lia.
Qed.

Lemma strlen_from_cstring (fuel : nat) (m : gmap Z Z) :
  ∀ (n : nat) (p : ptr),
    is_cstring m p n → (n < fuel)%nat → strlen_from fuel m p = Some (Z.of_nat n).
Proof.
  induction fuel as [|fuel IH]; intros n p Hs Hf; [lia|].
  cbn [strlen_from]. destruct n as [|n].
  - destruct Hs as [_ Hz]. rewrite Z.add_0_r in Hz. rewrite Hz.
    by rewrite decide_True.
  - destruct (proj1 Hs 0%nat) as (c & Hl & Hne); [lia|].
    rewrite Z.add_0_r in Hl. rewrite Hl, decide_False by done.
    rewrite (IH n) by (by apply cstring_tail || lia). simpl. f_equal. lia.
Qed.

Lemma strlen_from_sound (fuel : nat) (m : gmap Z Z) :
  ∀ (p : ptr) (z : Z),
    strlen_from fuel m p = Some z → ∃ n : nat, z = Z.of_nat n ∧ is_cstring m p n.
Proof.
  induction fuel as [|fuel IH]; intros p z; cbn [strlen_from]; [done|].
  destruct (m !! p) as [c|] eqn:Hc; [|done].
  destruct (decide (c = 0)) as [->|Hne].
  - intros [= <-]. exists 0%nat. split; [done|]. split.
    + intros i Hi. lia.
    + by rewrite Z.add_0_r.
  - destruct (strlen_from fuel m (p + 1)) as [z'|] eqn:E; simpl; [|done].
    intros [= <-]. destruct (IH _ _ E) as (n & -> & Hs & Hz).
    exists (S n). split; [lia|]. split.
    + intros i Hi. destruct i as [|i].
      * exists c. by rewrite Z.add_0_r.
      * destruct (Hs i) as (c' & Hl & Hc'); [lia|].
        exists c'. split; [|done]. rewrite <- Hl. f_equal. lia.
    + rewrite <- Hz. f_equal. lia.
Qed.

Lemma strlen_cstring (p : ptr) (n : nat) (w : world) :
  p ≠ NULL → is_cstring (mem w) p n → strlen p w = Next (Z.of_nat n) w.
Proof.
  intros Hp Hs. unfold strlen. rewrite decide_False by done.
  rewrite (strlen_from_cstring _ _ n) by (done || (apply cstring_bound in Hs; lia)).
  done.
Qed.

(** The value of the passphrase guard on a well-formed argument. *)
Lemma pwd_guard_eval (pwd : ptr) (len : option nat) (w : world) :
  pwd_arg (mem w) pwd len →
  pwd_guard pwd w =
  Next (match len with
        | None => true
        | Some n => bool_decide (Z.of_nat n ≤ 64)
        end) w.
Proof.
  destruct len as [n|]; simpl.
  - intros [Hp Hs]. unfold pwd_guard. rewrite bool_decide_eq_false_2 by done.
    rewrite bind_eval, (strlen_cstring _ n) by done. done.
  - intros ->. done.
Qed.

(** Unfolds one function down to its guards and memory accesses. *)
Ltac unfold_cmd :=
  unfold esp_ap_getip, esp_ap_setip, esp_ap_getmac, esp_ap_setmac,
    esp_ap_configure, esp_ap_list_sta, esp_ap_disconn_sta,
    espi_send_msg_to_producer_mbox, ESP_MSG_VAR_ALLOC, ESP_ASSERT, ESP_MEMCPY,
    pwd_guard, strlen, load, store, mbind, mret, cmd_bind, cmd_ret in *.

Ltac run_cmd :=
  unfold_cmd;
  repeat (case_bool_decide || case_decide || case_match);
  simplify_eq/=.

(** ** The access-point functions *)

Section esp_ap_properties.

Variables sizeof_esp_ip_t sizeof_esp_mac_t : nat.
Variables ESP_ECN_OPEN ESP_ECN_WPA_PSK ESP_ECN_WPA2_PSK ESP_ECN_WPA_WPA2_PSK : Z.

Local Abbreviation ap_configure :=
  (esp_ap_configure ESP_ECN_OPEN ESP_ECN_WPA_PSK ESP_ECN_WPA2_PSK
                    ESP_ECN_WPA_WPA2_PSK).
Local Abbreviation ap_setip := (esp_ap_setip sizeof_esp_ip_t).
Local Abbreviation ap_setmac := (esp_ap_setmac sizeof_esp_mac_t).
Local Abbreviation disconn_sta := (esp_ap_disconn_sta sizeof_esp_mac_t).
Local Abbreviation ecn_ok :=
  (ecn_guard ESP_ECN_OPEN ESP_ECN_WPA_PSK ESP_ECN_WPA2_PSK
             ESP_ECN_WPA_WPA2_PSK).

Lemma ecn_guard_true (ecn : Z) :
  ecn_ok ecn = true ↔
  ecn = ESP_ECN_OPEN ∨ ecn = ESP_ECN_WPA_PSK ∨ ecn = ESP_ECN_WPA2_PSK
  ∨ ecn = ESP_ECN_WPA_WPA2_PSK.
Proof.
  unfold ecn_guard. rewrite !orb_true_iff, !bool_decide_eq_true. tauto.
Qed.

(** C1: [esp_ap_configure] fails with [InvalidArgument], leaving the state
    as it was (no record constructed, nothing handed to the dispatcher),
    exactly when the SSID is null, or the passphrase is present and
    longer than 64 characters, or the encryption mode is none of the four
    accepted ones, or the channel exceeds 128, or the station limit is
    outside 1..10; in every other case the record is built and handed to
    the dispatcher. *)
Theorem esp_ap_configure_validation
    (ssid pwd : ptr) (len : option nat) (ch ecn max_sta hid : Z)
    (evt_fn evt_arg : ptr) (blocking : Z) (w : world) :
  pwd_arg (mem w) pwd len →
  let invalid :=
    ssid = NULL
    ∨ (∃ n : nat, len = Some n ∧ (64 < n)%nat)
    ∨ ¬ (ecn = ESP_ECN_OPEN ∨ ecn = ESP_ECN_WPA_PSK ∨ ecn = ESP_ECN_WPA2_PSK
         ∨ ecn = ESP_ECN_WPA_WPA2_PSK)
    ∨ 128 < ch
    ∨ ¬ (1 ≤ max_sta ≤ 10) in
  (invalid →
   ap_configure ssid pwd ch ecn max_sta hid evt_fn evt_arg blocking w
   = Returned InvalidArgument w)
  ∧ (¬ invalid →
     ap_configure ssid pwd ch ecn max_sta hid evt_fn evt_arg blocking w
     = Submitted
         {| cmd_def := ESP_CMD_WIFI_CWSAP_SET;
            is_blocking := bool_decide (blocking ≠ 0);
            evt_fn := evt_fn; evt_arg := evt_arg;
            msg := ap_conf ssid pwd ch ecn max_sta hid |}
         espi_initiate_cmd 10000
         (World (mem w) (S (msg_count w)))).
Proof.
  intros Hpwd invalid. subst invalid. unfold esp_ap_configure.
  rewrite bind_eval.
  destruct (decide (ssid = NULL)) as [Hs|Hs].
  { rewrite assert_fails by (by apply bool_decide_eq_false_2; intros []).
    split; [done|]. intros H. destruct H. by left. }
  rewrite assert_holds by (by apply bool_decide_eq_true_2).
  rewrite bind_eval, (pwd_guard_eval _ len) by done. rewrite bind_eval.
  assert ((∃ n : nat, len = Some n ∧ (64 < n)%nat) ∨
          match len with Some n => (n ≤ 64)%nat | None => True end) as [Hl|Hl].
  { destruct len as [n|]; [|by right].
    destruct (decide (64 < n)%nat); [left; eauto|right; lia]. }
  { destruct Hl as (n & -> & Hn).
    rewrite assert_fails by (apply bool_decide_eq_false_2; lia).
    split; [done|]. intros H. destruct H. right; left. eauto. }
  rewrite assert_holds; cycle 1.
  { destruct len as [n|]; [|done]. apply bool_decide_eq_true_2. lia. }
  rewrite bind_eval.
  destruct (ecn_ok ecn) eqn:He; cycle 1.
  { rewrite assert_fails by done. split; [done|]. intros H. destruct H.
    do 2 right; left. intros H. apply ecn_guard_true in H. congruence. }
  apply ecn_guard_true in He.
  rewrite assert_holds by done. rewrite bind_eval.
  destruct (decide (ch ≤ 128)) as [Hc|Hc]; cycle 1.
  { rewrite assert_fails by (by apply bool_decide_eq_false_2).
    split; [done|]. intros H. destruct H. do 3 right; left. lia. }
  rewrite assert_holds by (by apply bool_decide_eq_true_2). rewrite bind_eval.
  destruct (decide (1 ≤ max_sta ≤ 10)) as [Hm|Hm]; cycle 1.
  { rewrite assert_fails; cycle 1.
    { apply andb_false_iff. rewrite !bool_decide_eq_false. lia. }
    split; [done|]. intros H. destruct H. by do 4 right. }
  rewrite assert_holds; cycle 1.
  { apply andb_true_iff. rewrite !bool_decide_eq_true. lia. }
  split; [|done].
  intros [H|[(n & -> & Hn)|[H|[H|H]]]]; [done|lia|done|lia|done].
Qed.

(** C5: the record built by [esp_ap_configure] holds the caller's SSID and
    passphrase pointers themselves, and the channel, encryption mode,
    station limit and hidden flag by value; no character of either string
    is copied, and memory is left as it was. *)
Theorem esp_ap_configure_references
    (ssid pwd : ptr) (ch ecn max_sta hid : Z)
    (evt_fn evt_arg : ptr) (blocking : Z) (w w' : world)
    (m : esp_msg_t) (fn : process_fn) (t : Z) :
  ap_configure ssid pwd ch ecn max_sta hid evt_fn evt_arg blocking w
  = Submitted m fn t w' →
  msg m = ap_conf ssid pwd ch ecn max_sta hid ∧ mem w' = mem w.
Proof. intros H. run_cmd; done. Qed.

(** C7: [esp_ap_disconn_sta] with a null MAC pointer returns
    [InvalidArgument] at once, whatever the callback, its argument and the
    blocking flag are; the state is left as it was, so no record is created
    and none is queued. *)
Theorem esp_ap_disconn_sta_null
    (evt_fn evt_arg : ptr) (blocking : Z) (w : world) :
  disconn_sta NULL evt_fn evt_arg blocking w = Returned InvalidArgument w.
Proof. reflexivity. Qed.

(** The three cases of the guards of [esp_ap_setmac]. *)
Lemma setmac_guards
    (mac : ptr) (evt_fn evt_arg : ptr) (blocking : Z) (w : world) :
  (mac = NULL →
   ap_setmac mac evt_fn evt_arg blocking w = Returned InvalidArgument w)
  ∧ (∀ b0, mac ≠ NULL → mem w !! mac = Some b0 → Z.testbit b0 0 = true →
     ap_setmac mac evt_fn evt_arg blocking w = Returned InvalidArgument w)
  ∧ (∀ b0 bs, mac ≠ NULL → mem w !! mac = Some b0 → Z.testbit b0 0 = false →
     load_bytes (mem w) mac sizeof_esp_mac_t = Some bs →
     ap_setmac mac evt_fn evt_arg blocking w
     = Submitted
         {| cmd_def := ESP_CMD_WIFI_CIPAPMAC_SET;
            is_blocking := bool_decide (blocking ≠ 0);
            evt_fn := evt_fn; evt_arg := evt_arg;
            msg := sta_ap_setmac bs |}
         espi_initiate_cmd 1000
         (World (mem w) (S (msg_count w)))).
Proof.
  split; [by intros ->|]. split.
  - intros b0 Hp Hb Hbit. apply low_bit_land in Hbit.
    unfold esp_ap_setmac. rewrite bind_eval.
    rewrite assert_holds by (by apply bool_decide_eq_true_2).
    rewrite bind_eval, (load_mapped _ b0), bind_eval by done.
    by rewrite assert_fails by (by rewrite bool_decide_eq_true_2).
  - intros b0 bs Hp Hb Hbit Hbs.
    assert (¬ Z.land b0 1 ≠ 0) as Hclear.
    { rewrite low_bit_land. congruence. }
    unfold esp_ap_setmac. rewrite bind_eval.
    rewrite assert_holds by (by apply bool_decide_eq_true_2).
    rewrite bind_eval, (load_mapped _ b0), bind_eval by done.
    rewrite assert_holds by (by rewrite bool_decide_eq_false_2).
    rewrite bind_eval. cbn [ESP_MSG_VAR_ALLOC].
    rewrite bind_eval, (memcpy_mapped _ _ bs) by done. done.
Qed.


(** C6: [esp_ap_setmac] fails with [InvalidArgument], leaving the state as
    it was, when the MAC pointer is null and when the low bit of the first
    octet of the MAC is set; a MAC whose low bit is clear passes the guards
    and its record is handed to the dispatcher. *)
Theorem esp_ap_setmac_validation
    (mac : ptr) (evt_fn evt_arg : ptr) (blocking : Z) (w : world) :
  (mac = NULL →
   ap_setmac mac evt_fn evt_arg blocking w = Returned InvalidArgument w)
  ∧ (∀ b0, mac ≠ NULL → mem w !! mac = Some b0 → Z.testbit b0 0 = true →
     ap_setmac mac evt_fn evt_arg blocking w = Returned InvalidArgument w)
  ∧ (∀ b0 bs, mac ≠ NULL → mem w !! mac = Some b0 → Z.testbit b0 0 = false →
     load_bytes (mem w) mac sizeof_esp_mac_t = Some bs →
     ap_setmac mac evt_fn evt_arg blocking w
     = Submitted
         {| cmd_def := ESP_CMD_WIFI_CIPAPMAC_SET;
            is_blocking := bool_decide (blocking ≠ 0);
            evt_fn := evt_fn; evt_arg := evt_arg;
            msg := sta_ap_setmac bs |}
         espi_initiate_cmd 1000
         (World (mem w) (S (msg_count w)))).
Proof. apply setmac_guards. Qed.

(** C9: [esp_ap_setip] guards its [ip] argument only, and copies all
    three of [ip], [gw] and [nm] into the record without a test.  A null
    [ip] gives [InvalidArgument]; with a non-null [ip], a null [gw] or [nm]
    is used as the source of a copy, which is undefined, and so is any of
    the three that cannot be read; an early return happens for a null [ip]
    and for nothing else.  When the three can be read, the record handed to
    the dispatcher holds the octets of all three, and every submitted
    record is of that form, its three fields being what memory held at
    [ip], [gw] and [nm]; the function ends in no other way. *)
Theorem esp_ap_setip_guards
    (ip gw nm : ptr) (evt_fn evt_arg : ptr) (blocking : Z) (w : world) :
  (ip = NULL →
   ap_setip ip gw nm evt_fn evt_arg blocking w = Returned InvalidArgument w)
  ∧ (ip ≠ NULL → gw = NULL ∨ nm = NULL →
     ap_setip ip gw nm evt_fn evt_arg blocking w = Undefined)
  ∧ (∀ r w', ap_setip ip gw nm evt_fn evt_arg blocking w = Returned r w' →
     ip = NULL ∧ r = InvalidArgument)
  ∧ (∀ m fn t w',
       ap_setip ip gw nm evt_fn evt_arg blocking w = Submitted m fn t w' →
       ip ≠ NULL ∧ gw ≠ NULL ∧ nm ≠ NULL)
  ∧ (∀ bi bg bn,
       ip ≠ NULL → gw ≠ NULL → nm ≠ NULL →
       load_bytes (mem w) ip sizeof_esp_ip_t = Some bi →
       load_bytes (mem w) gw sizeof_esp_ip_t = Some bg →
       load_bytes (mem w) nm sizeof_esp_ip_t = Some bn →
       ap_setip ip gw nm evt_fn evt_arg blocking w
       = Submitted
           {| cmd_def := ESP_CMD_WIFI_CIPAP_SET;
              is_blocking := bool_decide (blocking ≠ 0);
              evt_fn := evt_fn; evt_arg := evt_arg;
              msg := sta_ap_setip bi bg bn |}
           espi_initiate_cmd 1000
           (World (mem w) (S (msg_count w))))
  ∧ (∀ m fn t w',
       ap_setip ip gw nm evt_fn evt_arg blocking w = Submitted m fn t w' →
       ∃ bi bg bn,
         msg m = sta_ap_setip bi bg bn
         ∧ load_bytes (mem w) ip sizeof_esp_ip_t = Some bi
         ∧ load_bytes (mem w) gw sizeof_esp_ip_t = Some bg
         ∧ load_bytes (mem w) nm sizeof_esp_ip_t = Some bn
         ∧ holds_octets (mem w) ip bi
         ∧ holds_octets (mem w) gw bg
         ∧ holds_octets (mem w) nm bn)
  ∧ (ip ≠ NULL →
     load_bytes (mem w) ip sizeof_esp_ip_t = None
     ∨ load_bytes (mem w) gw sizeof_esp_ip_t = None
     ∨ load_bytes (mem w) nm sizeof_esp_ip_t = None →
     ap_setip ip gw nm evt_fn evt_arg blocking w = Undefined)
  ∧ (∀ r w', ap_setip ip gw nm evt_fn evt_arg blocking w ≠ Next r w').
Proof.
  split; [by intros ->|]. split_and!.
  - intros Hip Hnull. run_cmd; try done; destruct Hnull; done.
  - intros r w' H. run_cmd; done.
  - intros m fn t w' H. run_cmd; done.
  - intros bi bg bn Hip Hgw Hnm Hbi Hbg Hbn.
    unfold esp_ap_setip. rewrite bind_eval.
    rewrite assert_holds by (by apply bool_decide_eq_true_2).
    rewrite bind_eval. cbn [ESP_MSG_VAR_ALLOC].
    rewrite bind_eval, (memcpy_mapped _ _ bi) by done.
    rewrite bind_eval, (memcpy_mapped _ _ bg) by done.
    rewrite bind_eval, (memcpy_mapped _ _ bn) by done.
    reflexivity.
  - intros m fn t w' H.
    run_cmd;
      (eexists _, _, _; split; [reflexivity|];
       split_and!; eauto using load_bytes_octets).
  - intros Hip Hnone. run_cmd; try done;
      destruct Hnone as [?|[?|?]]; congruence.
  - intros r w' H. run_cmd; done.
Qed.

(** C4: the set-style functions copy their fixed-size arguments into the
    record.  For [esp_ap_setip] (address, gateway, netmask), [esp_ap_setmac]
    and [esp_ap_disconn_sta] (MAC), the record handed to the dispatcher
    holds, octet for octet, what the caller's buffers held when the function
    was called, and what it holds is the same in whatever state memory is
    later on. *)
Theorem set_payload_copied
    (evt_fn evt_arg : ptr) (blocking : Z) (w : world) :
  (∀ ip gw nm bi bg bn,
     ip ≠ NULL → gw ≠ NULL → nm ≠ NULL →
     load_bytes (mem w) ip sizeof_esp_ip_t = Some bi →
     load_bytes (mem w) gw sizeof_esp_ip_t = Some bg →
     load_bytes (mem w) nm sizeof_esp_ip_t = Some bn →
     ∃ m,
       ap_setip ip gw nm evt_fn evt_arg blocking w
       = Submitted m espi_initiate_cmd 1000 (World (mem w) (S (msg_count w)))
       ∧ msg m = sta_ap_setip bi bg bn
       ∧ holds_octets (mem w) ip bi ∧ length bi = sizeof_esp_ip_t
       ∧ holds_octets (mem w) gw bg ∧ length bg = sizeof_esp_ip_t
       ∧ holds_octets (mem w) nm bn ∧ length bn = sizeof_esp_ip_t
       ∧ ∀ later, payload_octets later (msg m) = bi ++ bg ++ bn)
  ∧ (∀ mac b0 bs,
       mac ≠ NULL → mem w !! mac = Some b0 → Z.testbit b0 0 = false →
       load_bytes (mem w) mac sizeof_esp_mac_t = Some bs →
       ∃ m,
         ap_setmac mac evt_fn evt_arg blocking w
         = Submitted m espi_initiate_cmd 1000 (World (mem w) (S (msg_count w)))
         ∧ msg m = sta_ap_setmac bs
         ∧ holds_octets (mem w) mac bs ∧ length bs = sizeof_esp_mac_t
         ∧ ∀ later, payload_octets later (msg m) = bs)
  ∧ (∀ mac bs,
       mac ≠ NULL →
       load_bytes (mem w) mac sizeof_esp_mac_t = Some bs →
       ∃ m,
         disconn_sta mac evt_fn evt_arg blocking w
         = Submitted m espi_initiate_cmd 1000 (World (mem w) (S (msg_count w)))
         ∧ msg m = ap_disconn_sta bs
         ∧ holds_octets (mem w) mac bs ∧ length bs = sizeof_esp_mac_t
         ∧ ∀ later, payload_octets later (msg m) = bs).
Proof.
  split; [|split].
  - intros ip gw nm bi bg bn Hip Hgw Hnm Hbi Hbg Hbn. eexists. split.
    { unfold esp_ap_setip. rewrite bind_eval.
      rewrite assert_holds by (by apply bool_decide_eq_true_2).
      rewrite bind_eval. cbn [ESP_MSG_VAR_ALLOC].
      rewrite bind_eval, (memcpy_mapped _ _ bi) by done.
      rewrite bind_eval, (memcpy_mapped _ _ bg) by done.
      rewrite bind_eval, (memcpy_mapped _ _ bn) by done.
      reflexivity. }
    cbn [msg payload_octets].
    split_and!; eauto using load_bytes_octets, load_bytes_length.
  - intros mac b0 bs Hp Hb Hbit Hbs. eexists. split.
    { by apply (proj2 (proj2 (setmac_guards mac evt_fn evt_arg blocking w)) b0 bs). }
    cbn [msg payload_octets].
    split_and!; eauto using load_bytes_octets, load_bytes_length.
  - intros mac bs Hp Hbs. eexists. split.
    { unfold esp_ap_disconn_sta. rewrite bind_eval.
      rewrite assert_holds by (by apply bool_decide_eq_true_2).
      rewrite bind_eval. cbn [ESP_MSG_VAR_ALLOC].
      rewrite bind_eval, (memcpy_mapped _ _ bs) by done.
      reflexivity. }
    cbn [msg payload_octets].
    split_and!; eauto using load_bytes_octets, load_bytes_length.
Qed.

(** The guards of [esp_ap_list_sta]. *)
Lemma list_sta_guards
    (sta : ptr) (stal : Z) (staf : ptr)
    (evt_fn evt_arg : ptr) (blocking : Z) (w : world) :
  (sta = NULL ∨ stal ≤ 0 →
   esp_ap_list_sta sta stal staf evt_fn evt_arg blocking w
   = Returned InvalidArgument w)
  ∧ (sta ≠ NULL → 0 < stal →
     esp_ap_list_sta sta stal NULL evt_fn evt_arg blocking w
     = Submitted
         {| cmd_def := ESP_CMD_WIFI_CWLIF;
            is_blocking := bool_decide (blocking ≠ 0);
            evt_fn := evt_fn; evt_arg := evt_arg;
            msg := sta_list sta stal NULL |}
         espi_initiate_cmd 1000
         (World (mem w) (S (msg_count w)))).
Proof.
  split.
  - intros H. run_cmd; try done; destruct H; done || lia.
  - intros Hs Hl. run_cmd; done || lia.
Qed.


(** C10: [esp_ap_list_sta] rejects a null station array and a capacity
    that is not positive with [InvalidArgument], the state (the count
    included) being left as it was; a null count pointer is accepted, and
    then the function writes nothing to memory before it submits. *)
Theorem esp_ap_list_sta_validation
    (sta : ptr) (stal : Z) (staf : ptr)
    (evt_fn evt_arg : ptr) (blocking : Z) (w : world) :
  (sta = NULL ∨ stal ≤ 0 →
   esp_ap_list_sta sta stal staf evt_fn evt_arg blocking w
   = Returned InvalidArgument w)
  ∧ (sta ≠ NULL → 0 < stal →
     esp_ap_list_sta sta stal NULL evt_fn evt_arg blocking w
     = Submitted
         {| cmd_def := ESP_CMD_WIFI_CWLIF;
            is_blocking := bool_decide (blocking ≠ 0);
            evt_fn := evt_fn; evt_arg := evt_arg;
            msg := sta_list sta stal NULL |}
         espi_initiate_cmd 1000
         (World (mem w) (S (msg_count w)))).
Proof. apply list_sta_guards. Qed.

(** C2, as the code has it: [esp_ap_getip], [esp_ap_setip],
    [esp_ap_getmac], [esp_ap_setmac], [esp_ap_list_sta] and
    [esp_ap_disconn_sta] hand their record to the dispatcher with a block
    time of 1000; [esp_ap_configure] alone passes 10000. *)
Theorem block_times
    (evt_fn evt_arg : ptr) (blocking : Z) (w : world) :
  (∀ ip gw nm, ∃ m w',
     esp_ap_getip ip gw nm evt_fn evt_arg blocking w
     = Submitted m espi_initiate_cmd 1000 w')
  ∧ (∀ mac, ∃ m w',
       esp_ap_getmac mac evt_fn evt_arg blocking w
       = Submitted m espi_initiate_cmd 1000 w')
  ∧ (∀ ip gw nm m fn t w',
       ap_setip ip gw nm evt_fn evt_arg blocking w = Submitted m fn t w' →
       t = 1000)
  ∧ (∀ mac m fn t w',
       ap_setmac mac evt_fn evt_arg blocking w = Submitted m fn t w' →
       t = 1000)
  ∧ (∀ sta stal staf m fn t w',
       esp_ap_list_sta sta stal staf evt_fn evt_arg blocking w
       = Submitted m fn t w' →
       t = 1000)
  ∧ (∀ mac m fn t w',
       disconn_sta mac evt_fn evt_arg blocking w = Submitted m fn t w' →
       t = 1000)
  ∧ (∀ ssid pwd ch ecn max_sta hid m fn t w',
       ap_configure ssid pwd ch ecn max_sta hid evt_fn evt_arg blocking w
       = Submitted m fn t w' →
       t = 10000).
Proof.
  split_and!.
  - intros. by do 2 eexists.
  - intros. by do 2 eexists.
  - intros * H. run_cmd; done.
  - intros * H. run_cmd; done.
  - intros * H. run_cmd; done.
  - intros * H. run_cmd; done.
  - intros * H. run_cmd; done.
Qed.

(** C3, as the code has it: a call of [esp_ap_list_sta] with a count
    pointer [staf] that is not null.  When the guards reject the call it
    returns before the count is written, which keeps the value the caller
    left there.  When they pass, 0 is written through [staf] before the
    record is handed to the dispatcher; with a dispatcher that writes to the
    caller's memory on the success path only, every other outcome of the
    call leaves the count at 0, and a count that is not 0 after the call
    means the call succeeded. *)
Theorem esp_ap_list_sta_count
    (dispatcher : esp_msg_t → process_fn → Z → world → espr_t * world)
    (sta : ptr) (stal : Z) (staf : ptr) (v : Z)
    (evt_fn evt_arg : ptr) (blocking : Z) (w : world) :
  writes_only_on_success dispatcher →
  staf ≠ NULL →
  mem w !! staf = Some v →
  (sta = NULL ∨ stal ≤ 0 →
   call dispatcher (esp_ap_list_sta sta stal staf evt_fn evt_arg blocking) w
   = Some (InvalidArgument, w))
  ∧ (sta ≠ NULL → 0 < stal →
     ∃ m w1,
       esp_ap_list_sta sta stal staf evt_fn evt_arg blocking w
       = Submitted m espi_initiate_cmd 1000 w1
       ∧ msg m = sta_list sta stal staf
       ∧ mem w1 !! staf = Some 0
       ∧ ∃ r w2,
           call dispatcher
             (esp_ap_list_sta sta stal staf evt_fn evt_arg blocking) w
           = Some (r, w2)
           ∧ (r ≠ espOK → mem w2 !! staf = Some 0)
           ∧ (∀ c, mem w2 !! staf = Some c → c ≠ 0 → r = espOK)).
Proof.
  intros Hdisp Hp Hv. split.
  - intros H. unfold call.
    by rewrite (proj1 (list_sta_guards sta stal staf evt_fn evt_arg blocking w)).
  - intros Hs Hl.
    set (w1 := World (<[staf := 0]> (mem w)) (S (msg_count w))).
    set (m := {| cmd_def := ESP_CMD_WIFI_CWLIF;
                 is_blocking := bool_decide (blocking ≠ 0);
                 evt_fn := evt_fn; evt_arg := evt_arg;
                 msg := sta_list sta stal staf |}).
    assert (esp_ap_list_sta sta stal staf evt_fn evt_arg blocking w
            = Submitted m espi_initiate_cmd 1000 w1) as Hrun.
    { unfold esp_ap_list_sta. rewrite bind_eval.
      rewrite assert_holds by (by apply bool_decide_eq_true_2).
      rewrite bind_eval.
      rewrite assert_holds by (by apply bool_decide_eq_true_2).
      rewrite bind_eval, bool_decide_eq_true_2 by done.
      unfold store. rewrite decide_False by done. rewrite Hv. done. }
    assert (mem w1 !! staf = Some 0) as Hzero by apply lookup_insert_eq.
    exists m, w1. split_and!; [done..|].
    destruct (dispatcher m espi_initiate_cmd 1000 w1) as [r w2] eqn:Hd.
    exists r, w2. unfold call. rewrite Hrun, Hd. split; [done|].
    assert (r ≠ espOK → mem w2 !! staf = Some 0) as Hfail.
    { intros Hr. by rewrite (Hdisp _ _ _ _ _ _ Hd Hr). }
    split; [done|]. intros c Hc Hne.
    destruct (decide (r = espOK)) as [|Hr]; [done|].
    rewrite Hfail in Hc by done. congruence.
Qed.

End esp_ap_properties.

(** ** The dispatcher queue *)

Module DispatcherProofs.
Import Dispatcher.

Lemma inv_init : inv init.
Proof.
  split; simpl; try done.
  intros i. unfold executing. simpl. rewrite lookup_empty. naive_solver.
Qed.

(** Every queued or running record carries a sequence number already
    given out. *)
Lemma inv_seq_bound (s : state) (e : entry) :
  inv s → e ∈ submitted s → (seq_no e < length (submitted s))%nat.
Proof.
  intros Hinv He.
  assert (seq_no e ∈ seq_no <$> submitted s) as Hin
    by (by apply list_elem_of_fmap_2).
  rewrite (inv_seq s Hinv) in Hin. apply elem_of_seq in Hin. lia.
Qed.

Lemma inv_submit (capacity : nat) (blk : bool) (s : state) :
  inv s → inv (submit capacity blk s).2.
Proof.
  intros Hinv. unfold submit.
  destruct (ready s); simpl; [|done].
  case_decide; simpl; [done|].
  set (n := length (submitted s)).
  assert (status_of s !! n = None) as Hn.
  { destruct (status_of s !! n) eqn:E; [|done].
    pose proof (inv_fresh s Hinv n (mk_is_Some _ _ E)). lia. }
  split; simpl.
  - intros i. unfold executing. simpl.
    destruct (decide (i = n)) as [->|Hne].
    + rewrite lookup_insert_eq. split; [done|].
      intros Hc. apply (inv_active s Hinv) in Hc. unfold executing in Hc.
      congruence.
    + rewrite lookup_insert_ne by done. apply (inv_active s Hinv).
  - intros i. destruct (decide (i = n)) as [->|Hne].
    + rewrite length_app. simpl. lia.
    + rewrite lookup_insert_ne by done. intros Hi.
      pose proof (inv_fresh s Hinv i Hi). rewrite length_app. simpl. lia.
  - rewrite fmap_app, length_app, (inv_seq s Hinv). simpl.
    by rewrite Nat.add_1_r, seq_S.
  - by rewrite app_assoc, (inv_order s Hinv).
  - apply (inv_done s Hinv).
Qed.

Lemma inv_start (s : state) : inv s → inv (start s).
Proof.
  intros Hinv. unfold start.
  destruct (current s) as [c|] eqn:Hc; [done|].
  destruct (fifo s) as [|e rest] eqn:Hf; [done|].
  assert (∀ i, ¬ executing s i) as Hidle.
  { intros i Hi. apply (inv_active s Hinv) in Hi. by rewrite Hc in Hi. }
  assert (e ∈ submitted s) as He.
  { rewrite <- (inv_order s Hinv), Hf. set_solver. }
  split; simpl.
  - intros i. unfold executing. simpl.
    destruct (decide (i = seq_no e)) as [->|Hne].
    + by rewrite lookup_insert_eq.
    + rewrite lookup_insert_ne by done. split.
      * intros Hi. by destruct (Hidle i).
      * intros [= ?]. congruence.
  - intros i. destruct (decide (i = seq_no e)) as [->|Hne].
    + intros _. by apply inv_seq_bound.
    + rewrite lookup_insert_ne by done. apply (inv_fresh s Hinv).
  - apply (inv_seq s Hinv).
  - rewrite <- (inv_order s Hinv), Hf. by rewrite <- app_assoc.
  - rewrite <- (inv_done s Hinv), Hc. simpl. by rewrite app_nil_r.
Qed.

Lemma inv_finish (o : status) (s : state) : inv s → inv (finish o s).
Proof.
  intros Hinv. unfold finish.
  destruct (current s) as [e|] eqn:Hc; [|done].
  destruct (is_terminal o) eqn:Ho; [|done].
  assert (executing s (seq_no e)) as He.
  { apply (inv_active s Hinv). by rewrite Hc. }
  split; simpl.
  - intros i. unfold executing. simpl. split; [|done].
    destruct (decide (i = seq_no e)) as [->|Hne].
    + rewrite lookup_insert_eq. intros [= ->]. done.
    + rewrite lookup_insert_ne by done. intros Hi.
      apply (inv_active s Hinv) in Hi. rewrite Hc in Hi. simpl in Hi.
      congruence.
  - intros i. destruct (decide (i = seq_no e)) as [->|Hne].
    + intros _. apply (inv_fresh s Hinv). by eexists.
    + rewrite lookup_insert_ne by done. apply (inv_fresh s Hinv).
  - apply (inv_seq s Hinv).
  - apply (inv_order s Hinv).
  - rewrite app_nil_r. rewrite <- (inv_done s Hinv), Hc. done.
Qed.

Lemma inv_step (capacity : nat) (s : state) (ev : event) :
  inv s → inv (step capacity s ev).
Proof.
  intros Hinv. destruct ev as [|blk| |o]; simpl.
  - by destruct Hinv.
  - by apply inv_submit.
  - by apply inv_start.
  - by apply inv_finish.
Qed.

Lemma inv_steps (capacity : nat) (evs : list event) :
  ∀ s, inv s → inv (foldl (step capacity) s evs).
Proof.
  induction evs as [|ev evs IH]; intros s Hinv; simpl; [done|].
  by apply IH, inv_step.
Qed.

(** C8: in every state the dispatcher reaches, through any interleaving of
    submissions by any number of callers (blocking or not) with the steps
    of the worker, at most one record is executing, and it is the one the
    worker holds; the records the worker has taken, followed by those still
    waiting, are the accepted submissions in the order they were accepted,
    and the records brought to a terminal state, followed by the one being
    executed, are the records taken, in the same order. *)
Theorem single_active_fifo (capacity : nat) (evs : list event) :
  let s := run capacity evs in
  (∀ i j, executing s i → executing s j → i = j)
  ∧ (∀ i, executing s i ↔ seq_no <$> current s = Some i)
  ∧ started s ++ fifo s = submitted s
  ∧ finished s ++ option_list (current s) = started s
  ∧ seq_no <$> submitted s = seq 0 (length (submitted s)).
Proof.
  intros s.
  assert (inv s) as Hinv by apply inv_steps, inv_init.
  split_and!; try apply Hinv.
  intros i j Hi Hj.
  apply (inv_active s Hinv) in Hi. apply (inv_active s Hinv) in Hj.
  congruence.
Qed.

End DispatcherProofs.

(** ** Concrete calls

    The calls below run on [sample_world], with [esp_ip_t] of four octets,
    [esp_mac_t] of six, and the encryption modes numbered 0 (open), 2
    (WPA-PSK), 3 (WPA2-PSK) and 4 (WPA/WPA2-PSK). *)

Lemma sample_pwd : pwd_arg sample_mem 100 (Some 11%nat).
Proof.
  split; [done|].
  destruct (strlen_from_sound 12 sample_mem 100 11 eq_refl) as (n & Hn & Hs).
  by replace 11%nat with n by lia.
Qed.

Example configure_long_passphrase_rejected :
  let m := list_to_map ((fun i => (1000 + i, 97)) <$> seqZ 0 65) ∪ {[1065 := 0]} in
  esp_ap_configure 0 2 3 4 600 1000 6 3 4 0 0 0 1 (World m 0)
  = Returned InvalidArgument (World m 0).
Proof. vm_compute. reflexivity. Qed.

Example configure_passphrase_of_64_accepted :
  let m := list_to_map ((fun i => (1000 + i, 97)) <$> seqZ 0 64) ∪ {[1064 := 0]} in
  ∃ rec, esp_ap_configure 0 2 3 4 600 1000 6 3 4 0 0 0 1 (World m 0)
         = Submitted rec espi_initiate_cmd 10000 (World m 1).
Proof. eexists. vm_compute. reflexivity. Qed.

Lemma esp_ap_configure_validation_witness :
  esp_ap_configure 0 2 3 4 600 100 6 3 4 0 0 0 1 sample_world
  = Submitted
      {| cmd_def := ESP_CMD_WIFI_CWSAP_SET; is_blocking := true;
         evt_fn := 0; evt_arg := 0; msg := ap_conf 600 100 6 3 4 0 |}
      espi_initiate_cmd 10000 (World sample_mem 1)
  ∧ esp_ap_configure 0 2 3 4 600 100 129 3 4 0 0 0 1 sample_world
    = Returned InvalidArgument sample_world.
Proof.
  split.
  - apply (esp_ap_configure_validation 0 2 3 4 600 100 (Some 11%nat)
             6 3 4 0 0 0 1 sample_world sample_pwd).
    unfold NULL.
    intros [H|[(n & H & Hn)|[H|[H|H]]]];
      [lia | injection H as <-; lia | apply H; lia | lia | lia].
  - apply (esp_ap_configure_validation 0 2 3 4 600 100 (Some 11%nat)
             129 3 4 0 0 0 1 sample_world sample_pwd).
    do 3 right. left. lia.
Defined.

Lemma esp_ap_configure_references_witness :
  let rec := {| cmd_def := ESP_CMD_WIFI_CWSAP_SET; is_blocking := true;
                evt_fn := 0; evt_arg := 0;
                msg := ap_conf 600 100 6 3 4 0 |} in
  esp_ap_configure 0 2 3 4 600 100 6 3 4 0 0 0 1 sample_world
  = Submitted rec espi_initiate_cmd 10000 (World sample_mem 1)
  ∧ msg rec = ap_conf 600 100 6 3 4 0
  ∧ mem (World sample_mem 1) = mem sample_world.
Proof.
  intros rec.
  assert (esp_ap_configure 0 2 3 4 600 100 6 3 4 0 0 0 1 sample_world
          = Submitted rec espi_initiate_cmd 10000 (World sample_mem 1)) as Hrun
    by (vm_compute; reflexivity).
  split; [exact Hrun|].
  exact (esp_ap_configure_references 0 2 3 4 600 100 6 3 4 0 0 0 1
           sample_world (World sample_mem 1) rec espi_initiate_cmd 10000 Hrun).
Defined.

(** The text of a configure record is read through its pointers: once the
    caller overwrites the first character of the SSID, the record yields
    the new character. *)
Example configure_payload_follows_memory :
  payload_octets sample_mem (ap_conf 600 100 6 3 4 0)
  = [78; 69; 84; 49; 112; 97; 115; 115; 119; 111; 114; 100; 49; 50; 51]
  ∧ payload_octets (<[600 := 88]> sample_mem) (ap_conf 600 100 6 3 4 0)
    = [88; 69; 84; 49; 112; 97; 115; 115; 119; 111; 114; 100; 49; 50; 51].
Proof. split; vm_compute; reflexivity. Qed.

Lemma esp_ap_setmac_validation_witness :
  esp_ap_setmac 6 210 0 0 1 sample_world = Returned InvalidArgument sample_world
  ∧ esp_ap_setmac 6 200 0 0 1 sample_world
    = Submitted
        {| cmd_def := ESP_CMD_WIFI_CIPAPMAC_SET; is_blocking := true;
           evt_fn := 0; evt_arg := 0;
           msg := sta_ap_setmac [2; 17; 34; 51; 68; 85] |}
        espi_initiate_cmd 1000 (World sample_mem 1).
Proof.
  split.
  - apply (proj1 (proj2 (esp_ap_setmac_validation 6 210 0 0 1 sample_world)) 1);
      [unfold NULL; lia | reflexivity | reflexivity].
  - apply (proj2 (proj2 (esp_ap_setmac_validation 6 200 0 0 1 sample_world))
             2 [2; 17; 34; 51; 68; 85]);
      [unfold NULL; lia | reflexivity | reflexivity | reflexivity].
Defined.

Lemma esp_ap_setip_guards_witness :
  esp_ap_setip 4 300 NULL 308 0 0 1 sample_world = Undefined
  ∧ esp_ap_setip 4 300 304 NULL 0 0 0 sample_world = Undefined
  ∧ esp_ap_setip 4 NULL 304 308 0 0 0 sample_world
    = Returned InvalidArgument sample_world
  ∧ esp_ap_setip 4 300 304 308 0 0 1 sample_world
    = Submitted
        {| cmd_def := ESP_CMD_WIFI_CIPAP_SET; is_blocking := true;
           evt_fn := 0; evt_arg := 0;
           msg := sta_ap_setip [192; 168; 4; 1] [192; 168; 4; 1]
                               [255; 255; 255; 0] |}
        espi_initiate_cmd 1000 (World sample_mem 1)
  ∧ esp_ap_setip 4 300 304 309 0 0 1 sample_world = Undefined.
Proof.
  split_and!.
  - apply (proj1 (proj2 (esp_ap_setip_guards 4 300 NULL 308 0 0 1 sample_world)));
      [unfold NULL; lia | left; reflexivity].
  - apply (proj1 (proj2 (esp_ap_setip_guards 4 300 304 NULL 0 0 0 sample_world)));
      [unfold NULL; lia | right; reflexivity].
  - apply (proj1 (esp_ap_setip_guards 4 NULL 304 308 0 0 0 sample_world)).
    reflexivity.
  - apply (proj1 (proj2 (proj2 (proj2 (proj2
             (esp_ap_setip_guards 4 300 304 308 0 0 1 sample_world)))))
             [192; 168; 4; 1] [192; 168; 4; 1] [255; 255; 255; 0]);
      [unfold NULL; lia | unfold NULL; lia | unfold NULL; lia
      | reflexivity | reflexivity | reflexivity].
  - apply (proj1 (proj2 (proj2 (proj2 (proj2 (proj2 (proj2
             (esp_ap_setip_guards 4 300 304 309 0 0 1 sample_world))))))));
      [unfold NULL; lia | right; right; reflexivity].
Defined.

Lemma set_payload_copied_witness :
  ∃ m,
    esp_ap_setip 4 300 304 308 0 0 0 sample_world
    = Submitted m espi_initiate_cmd 1000 (World sample_mem 1)
    ∧ msg m = sta_ap_setip [192; 168; 4; 1] [192; 168; 4; 1] [255; 255; 255; 0]
    ∧ payload_octets ∅ (msg m)
      = [192; 168; 4; 1; 192; 168; 4; 1; 255; 255; 255; 0].
Proof.
  destruct (proj1 (set_payload_copied 4 6 0 0 0 sample_world) 300 304 308
              [192; 168; 4; 1] [192; 168; 4; 1] [255; 255; 255; 0])
    as (m & Hrun & Hmsg & _ & _ & _ & _ & _ & _ & Hlater);
    [unfold NULL; lia | unfold NULL; lia | unfold NULL; lia
    | reflexivity | reflexivity | reflexivity |].
  exists m. split; [exact Hrun|]. split; [exact Hmsg|]. exact (Hlater ∅).
Defined.

Lemma esp_ap_list_sta_validation_witness :
  esp_ap_list_sta NULL 2 400 0 0 1 sample_world
  = Returned InvalidArgument sample_world
  ∧ esp_ap_list_sta 700 0 400 0 0 1 sample_world
    = Returned InvalidArgument sample_world
  ∧ esp_ap_list_sta 700 2 NULL 0 0 1 sample_world
    = Submitted
        {| cmd_def := ESP_CMD_WIFI_CWLIF; is_blocking := true;
           evt_fn := 0; evt_arg := 0; msg := sta_list 700 2 NULL |}
        espi_initiate_cmd 1000 (World sample_mem 1).
Proof.
  split_and!.
  - apply (proj1 (esp_ap_list_sta_validation NULL 2 400 0 0 1 sample_world)).
    left. reflexivity.
  - apply (proj1 (esp_ap_list_sta_validation 700 0 400 0 0 1 sample_world)).
    right. lia.
  - apply (proj2 (esp_ap_list_sta_validation 700 2 NULL 0 0 1 sample_world));
      [unfold NULL; lia | lia].
Defined.

Lemma block_times_witness :
  ∃ m fn t w',
    esp_ap_setmac 6 200 0 0 1 sample_world = Submitted m fn t w' ∧ t = 1000.
Proof.
  exists {| cmd_def := ESP_CMD_WIFI_CIPAPMAC_SET; is_blocking := true;
            evt_fn := 0; evt_arg := 0;
            msg := sta_ap_setmac [2; 17; 34; 51; 68; 85] |},
    espi_initiate_cmd, 1000, (World sample_mem 1).
  assert (esp_ap_setmac 6 200 0 0 1 sample_world
          = Submitted
              {| cmd_def := ESP_CMD_WIFI_CIPAPMAC_SET; is_blocking := true;
                 evt_fn := 0; evt_arg := 0;
                 msg := sta_ap_setmac [2; 17; 34; 51; 68; 85] |}
              espi_initiate_cmd 1000 (World sample_mem 1)) as Hrun
    by (vm_compute; reflexivity).
  split; [exact Hrun|].
  exact (proj1 (proj2 (proj2 (proj2
           (block_times 4 6 0 2 3 4 0 0 1 sample_world)))) 200 _ _ _ _ Hrun).
Defined.

(** C2 as stated fails for [esp_ap_setmac]: on a valid MAC it submits with
    a block time of 1000, not 10000. *)
Lemma esp_ap_setmac_block_time_counterexample :
  (∃ m w',
     esp_ap_setmac 6 200 0 0 1 sample_world
     = Submitted m espi_initiate_cmd 1000 w')
  ∧ ¬ (∃ m fn w',
         esp_ap_setmac 6 200 0 0 1 sample_world = Submitted m fn 10000 w').
Proof.
  split.
  - do 2 eexists. vm_compute. reflexivity.
  - intros (m & fn & w' & H). vm_compute in H. discriminate H.
Qed.

Lemma station_dispatcher_frame (ready : bool) (connected : Z) :
  writes_only_on_success (station_dispatcher ready connected).
Proof.
  intros m fn t w r w'. unfold station_dispatcher.
  repeat case_match; intros [= <- <-]; done.
Qed.

Lemma esp_ap_list_sta_count_witness :
  (∃ m w1,
     esp_ap_list_sta 700 2 400 0 0 1 sample_world
     = Submitted m espi_initiate_cmd 1000 w1
     ∧ msg m = sta_list 700 2 400
     ∧ mem w1 !! 400 = Some 0
     ∧ ∃ r w2,
         call (station_dispatcher false 5)
           (esp_ap_list_sta 700 2 400 0 0 1) sample_world
         = Some (r, w2)
         ∧ (r ≠ espOK → mem w2 !! 400 = Some 0)
         ∧ (∀ c, mem w2 !! 400 = Some c → c ≠ 0 → r = espOK)).
Proof.
  apply (proj2 (esp_ap_list_sta_count (station_dispatcher false 5)
                  700 2 400 7 0 0 1 sample_world
                  (station_dispatcher_frame false 5)
                  ltac:(unfold NULL; lia) eq_refl));
    [unfold NULL; lia | lia].
Defined.

(** C3 as stated fails on a rejected call: the count that the caller left
    at [staf] is still there after the call, and it is not zero. *)
Lemma esp_ap_list_sta_rejected_count_counterexample :
  400 ≠ NULL
  ∧ call (station_dispatcher true 5)
      (esp_ap_list_sta NULL 2 400 0 0 1) sample_world
    = Some (InvalidArgument, sample_world)
  ∧ mem sample_world !! 400 = Some 7
  ∧ mem sample_world !! 400 ≠ Some 0.
Proof.
  split_and!; [unfold NULL; lia | reflexivity | reflexivity | ].
  vm_compute. discriminate.
Qed.

Example station_count_capped :
  ∃ w2,
    call (station_dispatcher true 5)
      (esp_ap_list_sta 700 2 400 0 0 1) sample_world
    = Some (espOK, w2)
    ∧ mem w2 !! 400 = Some 2.
Proof. eexists. split; vm_compute; reflexivity. Qed.

Example dispatcher_trace :
  let s := Dispatcher.run 2
             [Dispatcher.Ev_bring_up; Dispatcher.Ev_submit true;
              Dispatcher.Ev_submit false; Dispatcher.Ev_submit true;
              Dispatcher.Ev_start; Dispatcher.Ev_start;
              Dispatcher.Ev_finish Dispatcher.St_timeout;
              Dispatcher.Ev_start] in
  Dispatcher.seq_no <$> Dispatcher.submitted s = [0; 1]%nat
  ∧ Dispatcher.seq_no <$> Dispatcher.finished s = [0]%nat
  ∧ Dispatcher.seq_no <$> Dispatcher.current s = Some 1%nat
  ∧ Dispatcher.fifo s = [].
Proof. vm_compute. done. Qed.

(** * Further properties of the functions *)

(** ** Reading memory *)

Lemma load_bytes_is_Some (m : gmap Z Z) (n : nat) :
  ∀ p, is_Some (load_bytes m p n)
       ↔ ∀ i : nat, (i < n)%nat → is_Some (m !! (p + Z.of_nat i)).
Proof.
  induction n as [|n IH]; intros p; cbn [load_bytes].
  - split; [intros _ i Hi; lia | by eexists].
  - destruct (m !! p) as [b|] eqn:Hb.
    + rewrite fmap_is_Some, IH. split.
      * intros H [|i] Hi; [rewrite Z.add_0_r; by eexists|].
        replace (p + Z.of_nat (S i)) with (p + 1 + Z.of_nat i) by lia.
        apply H. lia.
      * intros H i Hi.
        replace (p + 1 + Z.of_nat i) with (p + Z.of_nat (S i)) by lia.
        apply H. lia.
    + split; [by intros [? ?]|]. intros H.
      destruct (H 0%nat) as [b Hb']; [lia|].
      rewrite Z.add_0_r in Hb'. congruence.
Qed.

Lemma memcpy_cases (p : ptr) (n : nat) (w : world) :
  (readable (mem w) p n ∧ ∃ bs, ESP_MEMCPY p n w = Next bs w)
  ∨ (¬ readable (mem w) p n ∧ ESP_MEMCPY p n w = Undefined).
Proof.
  unfold ESP_MEMCPY, readable. destruct (decide (p = NULL)) as [Hp|Hp].
  { right. split; [by intros [? _]|done]. }
  destruct (load_bytes (mem w) p n) as [bs|] eqn:Hl.
  - left. split; [|by eexists]. split; [done|].
    apply load_bytes_is_Some. by rewrite Hl.
  - right. split; [|done]. intros [_ H].
    apply load_bytes_is_Some in H. rewrite Hl in H. by destruct H.
Qed.

Lemma strlen_cases (p : ptr) (w : world) :
  p ≠ NULL →
  (∃ n : nat, is_cstring (mem w) p n ∧ strlen p w = Next (Z.of_nat n) w)
  ∨ ((¬ ∃ n : nat, is_cstring (mem w) p n) ∧ strlen p w = Undefined).
Proof.
  intros Hp. unfold strlen. rewrite decide_False by done.
  destruct (strlen_from (S (size (mem w))) (mem w) p) as [z|] eqn:Hs.
  - left. destruct (strlen_from_sound _ _ _ _ Hs) as (n & -> & Hc). eauto.
  - right. split; [|done]. intros (n & Hc).
    rewrite (strlen_from_cstring _ _ n) in Hs; [done|done|].
    apply cstring_bound in Hc. lia.
Qed.

(** Evaluates a function guard by guard: the next test on a boolean, a
    decision or a memory read is split into its cases. *)
Ltac split_scrutinee x :=
  lazymatch type of x with
  | bool => destruct x eqn:?
  | option _ => destruct x eqn:?
  | sumbool _ _ => destruct x
  end.

Ltac eval_cmd :=
  unfold_cmd;
  repeat (cbn beta iota delta [mem msg_count] in *;
          match goal with
          | |- context [match ?x with _ => _ end] => split_scrutinee x
          | H : context [match ?x with _ => _ end] |- _ => split_scrutinee x
          end);
  cbn beta iota delta [mem msg_count] in *.

(** ** All seven functions *)

Section family_properties.

Variables sizeof_esp_ip_t sizeof_esp_mac_t : nat.
Variables ESP_ECN_OPEN ESP_ECN_WPA_PSK ESP_ECN_WPA2_PSK ESP_ECN_WPA_WPA2_PSK : Z.

Local Abbreviation run_call :=
  (invoke sizeof_esp_ip_t sizeof_esp_mac_t ESP_ECN_OPEN ESP_ECN_WPA_PSK
          ESP_ECN_WPA2_PSK ESP_ECN_WPA_WPA2_PSK).

(** X1: a function of the file that returns without reaching the
    dispatcher returns [InvalidArgument] and leaves the state exactly as it
    found it; [esp_ap_getip] and [esp_ap_getmac] never do so; and no
    function ends in any other way than by that return, by the tail call or
    in undefined behaviour. *)
Theorem early_return_unchanged
    (c : ap_call) (evt_fn evt_arg : ptr) (blocking : Z) (w : world) :
  (∀ r w', run_call c evt_fn evt_arg blocking w = Returned r w' →
           r = InvalidArgument ∧ w' = w ∧ has_guard c = true)
  ∧ (∀ r w', run_call c evt_fn evt_arg blocking w ≠ Next r w').
Proof.
  split.
  - intros r w' H. destruct c; unfold invoke in H; run_cmd; done.
  - intros r w' H. destruct c; unfold invoke in H; run_cmd; done.
Qed.

(** X2: a call that reaches the dispatcher passes [espi_initiate_cmd],
    has constructed exactly one record, and has written nothing to the
    caller's memory, but for [esp_ap_list_sta] with a count pointer, which
    has set that one cell to 0; no address has become mapped or unmapped. *)
Theorem submission_effect
    (c : ap_call) (evt_fn evt_arg : ptr) (blocking : Z) (w w' : world)
    (m : esp_msg_t) (fn : process_fn) (t : Z) :
  run_call c evt_fn evt_arg blocking w = Submitted m fn t w' →
  fn = espi_initiate_cmd
  ∧ msg_count w' = S (msg_count w)
  ∧ mem w' = memory_after c (mem w)
  ∧ dom (mem w') = dom (mem w).
Proof.
  intros H. destruct c; unfold invoke, memory_after in *; run_cmd; try done.
  all: split_and!; try done.
  all: try (apply dom_insert_lookup_L; by eexists).
  all: match goal with Hn : ¬ _ ≠ NULL |- _ => by destruct Hn end.
Qed.

(** X3: the callback, its argument and the blocking flag decide nothing
    but the three completion fields of the record.  Whether a call is
    undefined, is rejected or is submitted, the state it leaves, the
    command tag, the payload and the block time are the same for any other
    choice of the three. *)
Theorem completion_arguments_independent
    (c : ap_call) (evt_fn evt_arg : ptr) (blocking : Z)
    (evt_fn' evt_arg' : ptr) (blocking' : Z) (w : world) :
  match run_call c evt_fn evt_arg blocking w with
  | Undefined => run_call c evt_fn' evt_arg' blocking' w = Undefined
  | Returned r w' => run_call c evt_fn' evt_arg' blocking' w = Returned r w'
  | Submitted m fn t w' =>
      run_call c evt_fn' evt_arg' blocking' w
      = Submitted
          {| cmd_def := cmd_def m;
             is_blocking := bool_decide (blocking' ≠ 0);
             evt_fn := evt_fn'; evt_arg := evt_arg';
             msg := msg m |}
          fn t w'
  | Next _ _ => False
  end.
Proof.
  destruct c; unfold invoke; eval_cmd; done.
Qed.

(** X4: submitting again what was just submitted.  In the state a
    submitted call leaves, the same call is submitted again, with the same
    record and block time, and leaves memory as the first call left it:
    what the first call wrote (the zero count of [esp_ap_list_sta]) does not
    change what the second one reads. *)
Theorem resubmission
    (c : ap_call) (evt_fn evt_arg : ptr) (blocking : Z) (w w' : world)
    (m : esp_msg_t) (fn : process_fn) (t : Z) :
  run_call c evt_fn evt_arg blocking w = Submitted m fn t w' →
  run_call c evt_fn evt_arg blocking w'
  = Submitted m fn t (World (mem w') (S (msg_count w'))).
Proof.
  intros H. destruct c; unfold invoke in *.
  all: unfold_cmd;
    repeat (cbn beta iota delta [mem msg_count] in H;
            match type of H with
            | context [match ?x with _ => _ end] => split_scrutinee x
            end);
    cbn beta iota delta [mem msg_count] in H; simplify_eq.
  all: cbn beta iota delta [mem msg_count].
  all: try rewrite lookup_insert_eq, insert_insert_eq.
  all: eval_cmd; simplify_eq; done || congruence.
Qed.

End family_properties.

(** ** What each function needs of the caller's memory *)

Section safety.

Variables sizeof_esp_ip_t sizeof_esp_mac_t : nat.
Variables ESP_ECN_OPEN ESP_ECN_WPA_PSK ESP_ECN_WPA2_PSK ESP_ECN_WPA_WPA2_PSK : Z.

(** X5: [esp_ap_setip] hands its record to the dispatcher exactly when all
    three of [ip], [gw] and [nm] are non-null and point to readable
    addresses, and its behaviour is undefined exactly when [ip] is not
    null and one of the three is null or not readable. *)
Theorem esp_ap_setip_safety
    (ip gw nm : ptr) (evt_fn evt_arg : ptr) (blocking : Z) (w : world) :
  let all_readable :=
    readable (mem w) ip sizeof_esp_ip_t
    ∧ readable (mem w) gw sizeof_esp_ip_t
    ∧ readable (mem w) nm sizeof_esp_ip_t in
  ((∃ m w', esp_ap_setip sizeof_esp_ip_t ip gw nm evt_fn evt_arg blocking w
            = Submitted m espi_initiate_cmd 1000 w')
   ↔ all_readable)
  ∧ (esp_ap_setip sizeof_esp_ip_t ip gw nm evt_fn evt_arg blocking w
     = Undefined
     ↔ ip ≠ NULL ∧ ¬ all_readable).
Proof.
  intros all_readable. subst all_readable.
  unfold esp_ap_setip. rewrite bind_eval.
  destruct (decide (ip = NULL)) as [->|Hip].
  { cbn. unfold readable. split; split; try done.
    - by intros (? & ? & ?).
    - by intros [[? _] _].
    - by intros [? _]. }
  rewrite assert_holds by (by apply bool_decide_eq_true_2).
  rewrite bind_eval. cbn [ESP_MSG_VAR_ALLOC]. rewrite bind_eval.
  set (w1 := World (mem w) (S (msg_count w))).
  destruct (memcpy_cases ip sizeof_esp_ip_t w1) as [[Ri [bi Hi]]|[Ri Hi]];
    rewrite Hi; change (mem w1) with (mem w) in Ri;
    [|split; split; try done; [by intros (? & ? & ?) | tauto | tauto]].
  rewrite bind_eval.
  destruct (memcpy_cases gw sizeof_esp_ip_t w1) as [[Rg [bg Hg]]|[Rg Hg]];
    rewrite Hg; change (mem w1) with (mem w) in Rg;
    [|split; split; try done; [by intros (? & ? & ?) | tauto | tauto]].
  rewrite bind_eval.
  destruct (memcpy_cases nm sizeof_esp_ip_t w1) as [[Rn [bn Hn]]|[Rn Hn]];
    rewrite Hn; change (mem w1) with (mem w) in Rn;
    [|split; split; try done; [by intros (? & ? & ?) | tauto | tauto]].
  split; split; try done.
  - intros _. by do 2 eexists.
  - tauto.
Qed.

(** X6: [esp_ap_setmac] reads the first octet of the MAC before anything
    else and the whole MAC only after the low bit of that octet was found
    clear.  Its behaviour is undefined exactly when [mac] is not null and
    either the first octet cannot be read, or it can, its low bit is clear,
    and the MAC is not readable in full. *)
Theorem esp_ap_setmac_safety
    (mac : ptr) (evt_fn evt_arg : ptr) (blocking : Z) (w : world) :
  esp_ap_setmac sizeof_esp_mac_t mac evt_fn evt_arg blocking w = Undefined
  ↔ mac ≠ NULL
    ∧ (mem w !! mac = None
       ∨ ∃ b0, mem w !! mac = Some b0 ∧ Z.testbit b0 0 = false
               ∧ ¬ readable (mem w) mac sizeof_esp_mac_t).
Proof.
  unfold esp_ap_setmac. rewrite bind_eval.
  destruct (decide (mac = NULL)) as [->|Hp].
  { cbn. split; [done|]. by intros [? _]. }
  rewrite assert_holds by (by apply bool_decide_eq_true_2).
  rewrite bind_eval. unfold load. rewrite decide_False by done.
  destruct (mem w !! mac) as [b0|] eqn:Hb; [|split; [eauto|done]].
  rewrite bind_eval.
  destruct (Z.testbit b0 0) eqn:Hbit.
  - rewrite assert_fails
      by (rewrite bool_decide_eq_true_2; [done|by apply low_bit_land]).
    split; [done|]. intros [_ [?|(b & ? & ? & _)]]; congruence.
  - rewrite assert_holds; cycle 1.
    { rewrite bool_decide_eq_false_2; [done|]. rewrite low_bit_land. congruence. }
    rewrite bind_eval. cbn [ESP_MSG_VAR_ALLOC]. rewrite bind_eval.
    set (w1 := World (mem w) (S (msg_count w))).
    destruct (memcpy_cases mac sizeof_esp_mac_t w1) as [[R [bs Hm]]|[R Hm]];
      rewrite Hm; change (mem w1) with (mem w) in R.
    + split; [done|]. intros [_ [?|(b & ? & ? & ?)]]; [congruence|tauto].
    + split; [|done]. intros _. split; [done|]. right. eauto.
Qed.

(** X7: [esp_ap_configure] reads the passphrase, and only the passphrase:
    its behaviour is undefined exactly when [ssid] and [pwd] are not null
    and [pwd] does not point to a zero-terminated string.  The characters
    of the SSID are never read, and with a null [ssid] the passphrase is
    not read either. *)
Theorem esp_ap_configure_safety
    (ssid pwd : ptr) (ch ecn max_sta hid : Z)
    (evt_fn evt_arg : ptr) (blocking : Z) (w : world) :
  esp_ap_configure ESP_ECN_OPEN ESP_ECN_WPA_PSK ESP_ECN_WPA2_PSK
    ESP_ECN_WPA_WPA2_PSK ssid pwd ch ecn max_sta hid evt_fn evt_arg blocking w
  = Undefined
  ↔ ssid ≠ NULL ∧ pwd ≠ NULL ∧ ¬ ∃ n : nat, is_cstring (mem w) pwd n.
Proof.
  unfold esp_ap_configure. rewrite bind_eval.
  destruct (decide (ssid = NULL)) as [->|Hs].
  { cbn. split; [done|]. by intros [? _]. }
  rewrite assert_holds by (by apply bool_decide_eq_true_2).
  rewrite bind_eval. unfold pwd_guard.
  destruct (decide (pwd = NULL)) as [->|Hp].
  { rewrite bool_decide_eq_true_2 by done. split; [|by intros (_ & ? & _)].
    intros H. exfalso. revert H. eval_cmd; done. }
  rewrite bool_decide_eq_false_2 by done. rewrite bind_eval.
  destruct (strlen_cases pwd w Hp) as [(n & Hc & Hl)|[Hn Hl]]; rewrite Hl.
  - split; [|intros (_ & _ & Hno); destruct Hno; eauto].
    intros H. exfalso. clear Hl. revert H. eval_cmd; done.
  - split; [done|]. done.
Qed.

(** X8: [esp_ap_list_sta] touches memory only through a non-null [staf]:
    its behaviour is undefined exactly when the guards pass and [staf] is
    not null but not a mapped address.  The station array [sta] is not
    accessed, whatever it points to. *)
Theorem esp_ap_list_sta_safety
    (sta : ptr) (stal : Z) (staf : ptr)
    (evt_fn evt_arg : ptr) (blocking : Z) (w : world) :
  esp_ap_list_sta sta stal staf evt_fn evt_arg blocking w = Undefined
  ↔ sta ≠ NULL ∧ 0 < stal ∧ staf ≠ NULL ∧ mem w !! staf = None.
Proof.
  split.
  - intros H. revert H. eval_cmd; intros H; try done;
      repeat match goal with
             | Hb : bool_decide _ = true |- _ => apply bool_decide_eq_true in Hb
             end;
      by split_and!.
  - intros (Hs & Hl & Hp & Hm). unfold esp_ap_list_sta.
    rewrite bind_eval, assert_holds by (by apply bool_decide_eq_true_2).
    rewrite bind_eval, assert_holds by (by apply bool_decide_eq_true_2).
    rewrite bind_eval, bool_decide_eq_true_2 by done.
    unfold store. rewrite decide_False by done. by rewrite Hm.
Qed.

(** X9: [esp_ap_disconn_sta] has no guard on the octets of the MAC: it
    hands its record to the dispatcher exactly when [mac] is not null and
    the MAC is readable, whatever its first octet is, and in particular for
    the multicast addresses that [esp_ap_setmac] rejects; its behaviour is
    undefined exactly when [mac] is not null and the MAC is not readable. *)
Theorem esp_ap_disconn_sta_safety
    (mac : ptr) (evt_fn evt_arg : ptr) (blocking : Z) (w : world) :
  ((∃ m w', esp_ap_disconn_sta sizeof_esp_mac_t mac evt_fn evt_arg blocking w
            = Submitted m espi_initiate_cmd 1000 w')
   ↔ readable (mem w) mac sizeof_esp_mac_t)
  ∧ (esp_ap_disconn_sta sizeof_esp_mac_t mac evt_fn evt_arg blocking w
     = Undefined
     ↔ mac ≠ NULL ∧ ¬ readable (mem w) mac sizeof_esp_mac_t)
  ∧ (∀ b0, readable (mem w) mac sizeof_esp_mac_t →
           mem w !! mac = Some b0 → Z.testbit b0 0 = true →
           esp_ap_setmac sizeof_esp_mac_t mac evt_fn evt_arg blocking w
           = Returned InvalidArgument w).
Proof.
  split_and!; cycle 2.
  { intros b0 [Hp _] Hb Hbit.
    by apply (proj1 (proj2 (setmac_guards sizeof_esp_mac_t mac evt_fn evt_arg
                              blocking w)) b0). }
  all: unfold esp_ap_disconn_sta; rewrite bind_eval.
  all: destruct (decide (mac = NULL)) as [->|Hp];
    [cbn; unfold readable; split; try done; try (by intros [[? _] _]);
     try (by intros [? _]); by intros (? & ? & ?)|].
  all: rewrite assert_holds by (by apply bool_decide_eq_true_2).
  all: rewrite bind_eval; cbn [ESP_MSG_VAR_ALLOC]; rewrite bind_eval.
  all: set (w1 := World (mem w) (S (msg_count w))).
  all: destruct (memcpy_cases mac sizeof_esp_mac_t w1) as [[R [bs Hm]]|[R Hm]];
    rewrite Hm; change (mem w1) with (mem w) in R.
  - split; [done|]. intros _. by do 2 eexists.
  - split; [by intros (? & ? & ?)|done].
  - split; [done|tauto].
  - split; [done|]. done.
Qed.

End safety.

(** ** Concrete calls for the properties above *)

Lemma early_return_unchanged_witness :
  invoke 4 6 0 2 3 4 (Setmac 210) 0 0 1 sample_world
  = Returned InvalidArgument sample_world
  ∧ has_guard (Setmac 210) = true.
Proof.
  assert (invoke 4 6 0 2 3 4 (Setmac 210) 0 0 1 sample_world
          = Returned InvalidArgument sample_world) as Hrun
    by (vm_compute; reflexivity).
  split; [exact Hrun|].
  exact (proj2 (proj2 (proj1 (early_return_unchanged 4 6 0 2 3 4
                                (Setmac 210) 0 0 1 sample_world) _ _ Hrun))).
Defined.

Lemma sample_list_sta_submitted :
  invoke 4 6 0 2 3 4 (List_sta 700 2 400) 0 0 1 sample_world
  = Submitted
      {| cmd_def := ESP_CMD_WIFI_CWLIF; is_blocking := true;
         evt_fn := 0; evt_arg := 0; msg := sta_list 700 2 400 |}
      espi_initiate_cmd 1000 (World (<[400 := 0]> sample_mem) 1).
Proof. vm_compute. reflexivity. Qed.

Lemma submission_effect_witness :
  mem (World (<[400 := 0]> sample_mem) 1)
  = memory_after (List_sta 700 2 400) (mem sample_world)
  ∧ dom (mem (World (<[400 := 0]> sample_mem) 1)) = dom (mem sample_world).
Proof.
  exact (proj2 (proj2 (submission_effect 4 6 0 2 3 4 (List_sta 700 2 400)
                         0 0 1 sample_world _ _ _ _
                         sample_list_sta_submitted))).
Defined.

Lemma resubmission_witness :
  invoke 4 6 0 2 3 4 (List_sta 700 2 400) 0 0 1
    (World (<[400 := 0]> sample_mem) 1)
  = Submitted
      {| cmd_def := ESP_CMD_WIFI_CWLIF; is_blocking := true;
         evt_fn := 0; evt_arg := 0; msg := sta_list 700 2 400 |}
      espi_initiate_cmd 1000 (World (<[400 := 0]> sample_mem) 2).
Proof.
  exact (resubmission 4 6 0 2 3 4 (List_sta 700 2 400) 0 0 1 sample_world
           _ _ _ _ sample_list_sta_submitted).
Defined.

Lemma sample_multicast_readable : readable sample_mem 210 6.
Proof.
  split; [unfold NULL; lia|].
  apply (proj1 (load_bytes_is_Some sample_mem 6 210)).
  exists [1; 0; 94; 0; 0; 1]. vm_compute. reflexivity.
Qed.

Lemma esp_ap_disconn_sta_safety_witness :
  (∃ m w', esp_ap_disconn_sta 6 210 0 0 1 sample_world
           = Submitted m espi_initiate_cmd 1000 w')
  ∧ esp_ap_setmac 6 210 0 0 1 sample_world
    = Returned InvalidArgument sample_world.
Proof.
  split.
  - exact (proj2 (proj1 (esp_ap_disconn_sta_safety 6 210 0 0 1 sample_world))
             sample_multicast_readable).
  - exact (proj2 (proj2 (esp_ap_disconn_sta_safety 6 210 0 0 1 sample_world))
             1 sample_multicast_readable eq_refl eq_refl).
Defined.

Example configure_dangling_pointers :
  esp_ap_configure 0 2 3 4 NULL 999 6 3 4 0 0 0 1 sample_world
  = Returned InvalidArgument sample_world
  ∧ esp_ap_configure 0 2 3 4 999 NULL 6 0 4 0 0 0 1 sample_world
    = Submitted
        {| cmd_def := ESP_CMD_WIFI_CWSAP_SET; is_blocking := true;
           evt_fn := 0; evt_arg := 0; msg := ap_conf 999 NULL 6 0 4 0 |}
        espi_initiate_cmd 10000 (World sample_mem 1)
  ∧ esp_ap_configure 0 2 3 4 600 999 200 3 4 0 0 0 1 sample_world = Undefined.
Proof. split_and!; vm_compute; reflexivity. Qed.
